(** * One-time passwords (HOTP, RFC 4226, and TOTP, RFC 6238)

    A shallow embedding of the [OTP] class of [src/index.ts] and of the
    helpers [numberToWordArray] and [wordArrayToBytes], followed by the
    properties of the engine.

    Conventions of the embedding.
    - A JavaScript [number] that holds an integer is a [Z].  Timestamps,
      periods and windows are integers; [digits] is a natural number.
      The quotients and the sum that make a counter are rounded as IEEE
      754 binary64 rounds them ([round64]); the non-finite values a
      division by a zero period produces are constructors of [number].
    - A 32-bit integer, as produced by the bitwise operators, is a [Z]
      with the wrap-around written out ([toInt32], [toUint32]).
    - A [Uint8Array] or [number[]] of bytes is a [list Z].
    - A method of the class is a function of the instance that returns
      an outcome and the instance it leaves behind (monad [M]); the only
      call of a collaborator that can throw is [base32.decode].
    - [Date.now()] and [CryptoJS.lib.WordArray.random(20)] are read from
      the environment: their values are arguments [now] and
      [randomBytes].
    - The keyed hashes and the base32 codec are a type class, so that the
      properties hold of any collaborators; module [Standard] gives the
      ones of the standards, on which the test vectors are evaluated. *)

From Stdlib Require Import ZArith QArith Qround List String Ascii Bool Lia.
Import ListNotations.
Local Open Scope string_scope.
Local Open Scope list_scope.
Local Open Scope Z_scope.

(** ** JavaScript primitives *)

Module JS.

(** [ToInt32] and [ToUint32] of the language specification, on integers. *)
Definition toInt32 (z : Z) : Z := (z + 2 ^ 31) mod 2 ^ 32 - 2 ^ 31.
Definition toUint32 (z : Z) : Z := z mod 2 ^ 32.

(** [a << k], [a >>> k], [a | b], [a & b]. *)
Definition shl32 (a k : Z) : Z := toInt32 (Z.shiftl (toInt32 a) (k mod 32)).
Definition ushr32 (a k : Z) : Z := Z.shiftr (toUint32 a) (k mod 32).
Definition or32 (a b : Z) : Z := Z.lor (toInt32 a) (toInt32 b).
Definition and32 (a b : Z) : Z := Z.land (toInt32 a) (toInt32 b).

(** The values of type [number] the engine can hold in a counter: an
    integer, or what a division by zero leaves. *)
Inductive number : Type :=
| Int (z : Z)
| Infinity
| NegInfinity
| NaN.

(** IEEE 754 binary64 arithmetic, as far as the engine uses it.  A value
    other than [NaN] is a rational or an infinity. *)
Inductive double : Type :=
| Finite (q : Q)
| PlusInfinity
| MinusInfinity.

(** [floor (log2 (num / den))], for [num > 0] and [den > 0]. *)
Definition ilog2 (num den : Z) : Z :=
  let k := Z.log2 num - Z.log2 den in
  let below :=
    if 0 <=? k then num <? den * 2 ^ k else num * 2 ^ (- k) <? den in
  if below then k - 1 else k.

(** The integer nearest to [num / den], the even one of two at the same
    distance, for [num >= 0] and [den > 0]. *)
Definition nearestEven (num den : Z) : Z :=
  let q := num / den in
  let r := num mod den in
  if 2 * r <? den then q
  else if den <? 2 * r then q + 1
  else if Z.even q then q else q + 1.

(** The binary64 value of a rational: round to nearest, ties to even, on
    53 significant bits, with the least exponent [-1074] (subnormal
    values) and an infinity from [2 ^ 1024] on. *)
Definition round64 (x : Q) : double :=
  let n := Qnum x in
  let d := Z.pos (Qden x) in
  if n =? 0 then Finite 0
  else
    let a := Z.abs n in
    let e := Z.max (ilog2 a d - 52) (- 1074) in
    let m :=
      if 0 <=? e then nearestEven a (d * 2 ^ e)
      else nearestEven (a * 2 ^ (- e)) d in
    if (0 <=? e) && (2 ^ 1024 <=? m * 2 ^ e) then
      if 0 <? n then PlusInfinity else MinusInfinity
    else if 0 <=? e then Finite (inject_Z (Z.sgn n * m * 2 ^ e))
    else Finite (Qmake (Z.sgn n * m) (Z.to_pos (2 ^ (- e)))).

(** [x / y] for a double [x] and an integer [y <> 0]. *)
Definition divide (x : double) (y : Z) : double :=
  match x with
  | Finite q => round64 (q / inject_Z y)
  | PlusInfinity => if 0 <? y then PlusInfinity else MinusInfinity
  | MinusInfinity => if 0 <? y then MinusInfinity else PlusInfinity
  end.

(** [Math.floor(x)]. *)
Definition floor (x : double) : number :=
  match x with
  | Finite q => Int (Qfloor q)
  | PlusInfinity => Infinity
  | MinusInfinity => NegInfinity
  end.

(** [x + i] for an integer [i]: the sum is rounded to a double; adding 0
    leaves any number as it is. *)
Definition add (x : number) (i : Z) : number :=
  match x with
  | Int z => if i =? 0 then Int z else floor (round64 (inject_Z (z + i)))
  | other => other
  end.

(** [Math.floor(a / b / c)] for integers [a], [b <> 0] and [c], each
    quotient rounded to a double: a zero [c] gives a signed infinity, or
    [NaN] for [0 / 0]. *)
Definition floor_div_div (a b c : Z) : number :=
  if c =? 0 then
    if 0 <? a * b then Infinity
    else if a * b <? 0 then NegInfinity
    else NaN
  else floor (divide (divide (Finite (inject_Z a)) b) c).

(** Strings. *)

Definition digitChars : list ascii :=
  list_ascii_of_string "0123456789abcdefghijklmnopqrstuvwxyz".

Definition digitChar (d : Z) : ascii := nth (Z.to_nat d) digitChars "0"%char.

(** The digits of [n >= 0] in base [radix], most significant first, with
    no leading zero; [fuel] bounds the number of digits. *)
Fixpoint digitsFrom (radix : Z) (fuel : nat) (n : Z) (acc : list Z) : list Z :=
  match fuel with
  | O => acc
  | S fuel' =>
      let acc' := n mod radix :: acc in
      if n / radix =? 0 then acc' else digitsFrom radix fuel' (n / radix) acc'
  end.

Definition digitsOf (radix n : Z) : list Z :=
  digitsFrom radix (S (Z.to_nat (Z.log2 n))) n [].

(** [x.toString(radix)]. *)
Definition toString (x : number) (radix : Z) : string :=
  match x with
  | Int z =>
      String.append (if z <? 0 then "-" else "")
        (string_of_list_ascii (map digitChar (digitsOf radix (Z.abs z))))
  | Infinity => "Infinity"
  | NegInfinity => "-Infinity"
  | NaN => "NaN"
  end.

(** [s.padStart(targetLength, c)] for a one-character filler. *)
Definition padStart (s : string) (targetLength : nat) (c : ascii) : string :=
  String.append
    (string_of_list_ascii (repeat c (targetLength - String.length s))) s.

(** The value of a character as a digit, if it is one. *)
Definition digitValue (c : ascii) : option Z :=
  let n := Z.of_N (N_of_ascii c) in
  if (48 <=? n) && (n <=? 57) then Some (n - 48)
  else if (97 <=? n) && (n <=? 122) then Some (n - 87)
  else if (65 <=? n) && (n <=? 90) then Some (n - 55)
  else None.

Fixpoint parseDigits (radix : Z) (cs : list ascii) (acc : option Z) : option Z :=
  match cs with
  | [] => acc
  | c :: cs' =>
      match digitValue c with
      | Some d =>
          if d <? radix then
            parseDigits radix cs'
              (Some (match acc with Some a => a * radix + d | None => d end))
          else acc
      | None => acc
      end
  end.

Definition isWhiteSpace (c : ascii) : bool :=
  let n := N_of_ascii c in
  ((9 <=? n) && (n <=? 13))%N || (n =? 32)%N.

Fixpoint trimStart (cs : list ascii) : list ascii :=
  match cs with
  | c :: cs' => if isWhiteSpace c then trimStart cs' else cs
  | [] => []
  end.

(** [parseInt(s, radix)]; [None] stands for [NaN]. *)
Definition parseInt (s : list ascii) (radix : Z) : option Z :=
  let cs := trimStart s in
  let '(sign, cs) :=
    match cs with
    | "-"%char :: r => (-1, r)
    | "+"%char :: r => (1, r)
    | _ => (1, cs)
    end in
  let cs :=
    if radix =? 16 then
      match cs with
      | "0"%char :: "x"%char :: r => r
      | "0"%char :: "X"%char :: r => r
      | _ => cs
      end
    else cs in
  option_map (Z.mul sign) (parseDigits radix cs None).

(** A [NaN] operand of a bitwise operator counts as [0]. *)
Definition orZero (x : option Z) : Z :=
  match x with Some z => z | None => 0 end.

(** [a[i]] read under a bitwise operator: an index outside the array
    gives [undefined], which the operator turns into [0]. *)
Definition at0 (a : list Z) (i : Z) : Z :=
  if i <? 0 then 0 else nth (Z.to_nat i) a 0.

(** [words[k] |= v]: an index at the end of the array extends it; a read
    of a missing element counts as [0] under [|]. *)
Fixpoint orAt (k : nat) (v : Z) (words : list Z) : list Z :=
  match k, words with
  | O, [] => [or32 0 v]
  | O, w :: ws => or32 w v :: ws
  | S k', [] => 0 :: orAt k' v []
  | S k', w :: ws => w :: orAt k' v ws
  end.

End JS.

(** ** The parts of the crypto-js library the engine touches *)

Module CryptoJS.

(** [CryptoJS.lib.WordArray]: big-endian 32-bit words, of which the first
    [sigBytes] bytes are significant. *)
Record WordArray : Type := mkWordArray {
  words : list Z;
  sigBytes : nat
}.

(** The type of [CryptoJS.HmacSHA1] and its siblings: message first, key
    second. *)
Definition Hash : Type := WordArray -> WordArray -> WordArray.

(** Modelled from the spec: [CryptoJS.lib.WordArray.create] on a
    [Uint8Array] is library code outside the sources; it packs the bytes
    big-endian, four to a word, with [words[i >>> 2] |= b << (24 - (i % 4) * 8)]. *)
Fixpoint createFrom (i : nat) (typedArray : list Z) (ws : list Z) : list Z :=
  match typedArray with
  | [] => ws
  | b :: rest =>
      createFrom (S i) rest
        (JS.orAt (i / 4) (JS.shl32 b (24 - Z.of_nat (i mod 4) * 8)) ws)
  end.

Definition create (typedArray : list Z) : WordArray :=
  mkWordArray (createFrom 0 typedArray []) (List.length typedArray).

(** Modelled from the spec: [CryptoJS.enc.Hex.parse] is library code
    outside the sources; it reads the string two characters at a time
    with [words[i >>> 3] |= parseInt(hexStr.substr(i, 2), 16) << (24 - (i % 8) * 4)]
    and records [hexStr.length / 2] significant bytes (for a string of odd
    length the library's count is fractional; the whole part is kept here,
    and the strings of 16 characters the engine builds for a 64-bit
    counter are not concerned). *)
Fixpoint parseFrom (i : nat) (hexStr : list ascii) (ws : list Z) : list Z :=
  match hexStr with
  | [] => ws
  | [c] =>
      JS.orAt (i / 8)
        (JS.shl32 (JS.orZero (JS.parseInt [c] 16)) (24 - Z.of_nat (i mod 8) * 4)) ws
  | c1 :: c2 :: rest =>
      parseFrom (i + 2) rest
        (JS.orAt (i / 8)
           (JS.shl32 (JS.orZero (JS.parseInt [c1; c2] 16))
              (24 - Z.of_nat (i mod 8) * 4)) ws)
  end.

Definition Hex_parse (hexStr : string) : WordArray :=
  mkWordArray (parseFrom 0 (list_ascii_of_string hexStr) [])
    (String.length hexStr / 2).

End CryptoJS.

Import CryptoJS.

(** The external collaborators of the engine: the three keyed hashes of
    crypto-js and the base32 codec.  The codec may reject a text. *)
Class Externals : Type := {
  HmacSHA1 : Hash;
  HmacSHA256 : Hash;
  HmacSHA512 : Hash;
  base32_decode : string -> option (list Z);
  base32_encode : list Z -> string
}.

(** What the specification assumes of the keyed hashes: digests of 20, 32
    and 64 bytes. *)
Class ExternalsSpec (E : Externals) : Prop := {
  HmacSHA1_sigBytes : forall m k, sigBytes (HmacSHA1 m k) = 20%nat;
  HmacSHA256_sigBytes : forall m k, sigBytes (HmacSHA256 m k) = 32%nat;
  HmacSHA512_sigBytes : forall m k, sigBytes (HmacSHA512 m k) = 64%nat
}.

(** ** src/errors.ts *)

Inductive error : Type :=
| InvalidAlgorithmError (algorithm : string)
| CodecError (text : string).

(** The message [InvalidAlgorithmError] is built with. *)
Definition InvalidAlgorithmError_message (algorithm : string) : string :=
  String.append "Invalid algorithm: "
    (String.append algorithm ". Supported algorithms are SHA1, SHA256, SHA512.").

(** ** The helpers [numberToWordArray] and [wordArrayToBytes] *)

Definition numberToWordArray (counter : JS.number) : WordArray :=
  let hexCounter := JS.padStart (JS.toString counter 16) 16 "0"%char in
  Hex_parse hexCounter.

Definition wordArrayToBytes (wordArray : WordArray) : list Z :=
  map (fun i : nat =>
         JS.and32
           (JS.ushr32 (JS.at0 (words wordArray) (Z.of_nat (i / 4)))
              (24 - Z.of_nat (i mod 4) * 8))
           255)
      (seq 0 (sigBytes wordArray)).

(** ** src/typings.ts: the option records; an absent field is [None] *)

Module HOTPOptions.
Record t : Type := mk { counter : JS.number }.
End HOTPOptions.

Module TOTPOptions.
Record t : Type := mk { period : option Z; timestamp : option Z }.
End TOTPOptions.

Module OTPGeneratorOptions.
Record t : Type := mk {
  algorithm : option string;
  digits : option nat;
  period : option Z;
  secret : option string
}.
End OTPGeneratorOptions.

(** [TOTPVerifyOptions extends TOTPOptions]. *)
Module TOTPVerifyOptions.
Record t : Type := mk {
  period : option Z;
  timestamp : option Z;
  code : string;
  window : option Z
}.
End TOTPVerifyOptions.

(** [HOTPVerify extends HOTPOptions]. *)
Module HOTPVerify.
Record t : Type := mk { counter : JS.number; code : string }.
End HOTPVerify.

(** ** src/index.ts: the [OTP] class *)

(** How a call ends: with a value, or with a thrown error. *)
Inductive outcome (A : Type) : Type :=
| Return (a : A)
| Throw (e : error).
Arguments Return {A} a.
Arguments Throw {A} e.

Module OTP.

(** The private fields [#algorithm], [#digits], [#secret], [#period] and
    [#hash]; the projections are the four getters.  [digits] is a count of
    characters, hence a [nat]. *)
Record t : Type := mk {
  algorithm : string;
  digits : nat;
  secret : string;
  period : Z;
  hash : Hash
}.

(** A method: it reads and writes the fields of [this], and returns or
    throws. *)
Definition M (A : Type) : Type := t -> outcome A * t.

Definition ret {A} (a : A) : M A := fun this => (Return a, this).
Definition throw {A} (e : error) : M A := fun this => (Throw e, this).
Definition bind {A B} (m : M A) (k : A -> M B) : M B :=
  fun this =>
    match m this with
    | (Return a, this') => k a this'
    | (Throw e, this') => (Throw e, this')
    end.
Definition get {A} (field : t -> A) : M A := fun this => (Return (field this), this).
Definition set_period (p : Z) : M unit :=
  fun this =>
    (Return tt, mk (algorithm this) (digits this) (secret this) p (hash this)).
Definition set_hash (h : Hash) : M unit :=
  fun this =>
    (Return tt, mk (algorithm this) (digits this) (secret this) (period this) h).

(** The value and the instance a call leaves. *)
Definition result {A} (m : M A) (this : t) : outcome A := fst (m this).
Definition after {A} (m : M A) (this : t) : t := snd (m this).

Declare Scope otp_scope.
Delimit Scope otp_scope with otp.
Notation "x <- m ;; k" := (bind m (fun x => k))
  (at level 61, m at next level, right associativity) : otp_scope.
Notation "m ;;; k" := (bind m (fun _ => k))
  (at level 61, right associativity) : otp_scope.
Local Open Scope otp_scope.

Section Engine.

Context {E : Externals}.

(** [setHash]. *)
Definition setHash : M unit :=
  a <- get algorithm ;;
  if String.eqb a "SHA1" then set_hash HmacSHA1
  else if String.eqb a "SHA256" then set_hash HmacSHA256
  else if String.eqb a "SHA512" then set_hash HmacSHA512
  else throw (InvalidAlgorithmError a).

(** [generateSecret]; [randomBytes] is what
    [CryptoJS.lib.WordArray.random(20)] returned. *)
Definition generateSecret (randomBytes : WordArray) : string :=
  let bytes :=
    map (fun i : nat =>
           JS.and32
             (JS.ushr32 (JS.at0 (words randomBytes) (Z.of_nat (i / 4)))
                (24 - Z.of_nat (i mod 4) * 8))
             255)
        (seq 0 (sigBytes randomBytes)) in
  base32_encode bytes.

(** [new OTP(options)]; [randomBytes] is read only when no secret is
    given. *)
Definition new (randomBytes : WordArray) (options : OTPGeneratorOptions.t)
  : outcome t :=
  let this :=
    mk (match OTPGeneratorOptions.algorithm options with
        | Some a => a | None => "SHA1" end)
       (match OTPGeneratorOptions.digits options with
        | Some d => d | None => 6%nat end)
       (match OTPGeneratorOptions.secret options with
        | Some s => s | None => generateSecret randomBytes end)
       (match OTPGeneratorOptions.period options with
        | Some p => p | None => 30 end)
       HmacSHA1 in
  match setHash this with
  | (Return _, this') => Return this'
  | (Throw e, _) => Throw e
  end.

(** [OTP.generate(options)]. *)
Definition generate (randomBytes : WordArray) (options : OTPGeneratorOptions.t)
  : outcome t :=
  new randomBytes options.

(** [base32.decode(this.#secret)], which may throw. *)
Definition decodeSecret : M (list Z) :=
  s <- get secret ;;
  match base32_decode s with
  | Some bytes => ret bytes
  | None => throw (CodecError s)
  end.

(** [hotp(options)]. *)
Definition hotp (options : HOTPOptions.t) : M string :=
  let counter := HOTPOptions.counter options in
  keyBytes <- decodeSecret ;;
  let key := CryptoJS.create keyBytes in
  let counterWordArray := numberToWordArray counter in
  h <- get hash ;;
  let hmac := h counterWordArray key in
  let hmacBytes := wordArrayToBytes hmac in
  let offset :=
    JS.and32 (JS.at0 hmacBytes (Z.of_nat (List.length hmacBytes) - 1)) 15 in
  d <- get digits ;;
  let code :=
    Z.rem
      (JS.or32
         (JS.or32
            (JS.or32
               (JS.shl32 (JS.and32 (JS.at0 hmacBytes offset) 127) 24)
               (JS.shl32 (JS.and32 (JS.at0 hmacBytes (offset + 1)) 255) 16))
            (JS.shl32 (JS.and32 (JS.at0 hmacBytes (offset + 2)) 255) 8))
         (JS.and32 (JS.at0 hmacBytes (offset + 3)) 255))
      (10 ^ Z.of_nat d) in
  ret (JS.padStart (JS.toString (JS.Int code) 10) d "0"%char).

(** [totp(options)]; [now] is what [Date.now()] returns. *)
Definition totp (now : Z) (options : TOTPOptions.t) : M string :=
  let timestamp :=
    match TOTPOptions.timestamp options with Some ts => ts | None => now end in
  match TOTPOptions.period options with
  | Some p => if p =? 0 then ret tt else set_period p
  | None => ret tt
  end ;;;
  p <- get period ;;
  let counter := JS.floor_div_div timestamp 1000 p in
  hotp (HOTPOptions.mk counter).

(** [hotpVerify(options)]. *)
Definition hotpVerify (options : HOTPVerify.t) : M bool :=
  let code := HOTPVerify.code options in
  let counter := HOTPVerify.counter options in
  otp <- hotp (HOTPOptions.mk counter) ;;
  ret (String.eqb otp code).

(** The loop of [totpVerify]: [n] iterations are left, from [i]. *)
Fixpoint totpVerify_for (n : nat) (i : Z) (code : string) (timestamp : Z)
  : M bool :=
  match n with
  | O => ret false
  | S n' =>
      p <- get period ;;
      let counter := JS.add (JS.floor_div_div timestamp 1000 p) i in
      otp <- hotp (HOTPOptions.mk counter) ;;
      if String.eqb otp code then ret true
      else totpVerify_for n' (i + 1) code timestamp
  end.

(** [totpVerify(options)]: [i] runs from [-window] while [i <= window]. *)
Definition totpVerify (now : Z) (options : TOTPVerifyOptions.t) : M bool :=
  let code := TOTPVerifyOptions.code options in
  let timestamp :=
    match TOTPVerifyOptions.timestamp options with
    | Some ts => ts | None => now end in
  let window :=
    match TOTPVerifyOptions.window options with
    | Some w => w | None => 1 end in
  totpVerify_for (Z.to_nat (window - (- window) + 1)) (- window) code timestamp.

End Engine.

End OTP.

(** ** The collaborators, from their standards

    The engine is stated over any [Externals]; the test vectors need the
    real ones. *)

Module Standard.

(** Bytes and words, big-endian. *)

Fixpoint be_bytes (n : nat) (x : Z) : list Z :=
  match n with
  | O => []
  | S n' => be_bytes n' (x / 256) ++ [x mod 256]
  end.

Definition be_value (bs : list Z) : Z := fold_left (fun a b => a * 256 + b) bs 0.

Fixpoint chunks (fuel size : nat) (l : list Z) : list (list Z) :=
  match fuel, l with
  | S fuel', _ :: _ => firstn size l :: chunks fuel' size (skipn size l)
  | _, _ => []
  end.

Definition bytes_of_string (s : string) : list Z :=
  map (fun c => Z.of_N (N_of_ascii c)) (list_ascii_of_string s).

(** The padding of FIPS 180-4, section 5.1: a [1] bit, zeros, and the
    length in bits on [lenBytes] bytes, to a multiple of [blockSize]. *)
Definition pad (blockSize lenBytes : nat) (msg : list Z) : list Z :=
  let len := List.length msg in
  let k := ((blockSize - (len + 1 + lenBytes) mod blockSize) mod blockSize)%nat in
  msg ++ [128] ++ repeat 0 k ++ be_bytes lenBytes (8 * Z.of_nat len).

Definition blocks (blockSize wordSize : nat) (padded : list Z) : list (list Z) :=
  map (fun b => map be_value (chunks blockSize wordSize b))
      (chunks (List.length padded) blockSize padded).

Section Words.

(** Words of [w] bits. *)
Variable w : Z.

Definition wrap (x : Z) : Z := x mod 2 ^ w.
Definition ROTL (n x : Z) : Z :=
  wrap (Z.lor (Z.shiftl x n) (Z.shiftr x (w - n))).
Definition ROTR (n x : Z) : Z :=
  wrap (Z.lor (Z.shiftr x n) (Z.shiftl x (w - n))).
Definition SHR (n x : Z) : Z := Z.shiftr x n.
Definition NOT (x : Z) : Z := Z.lxor x (2 ^ w - 1).
Definition Ch (x y z : Z) : Z := Z.lxor (Z.land x y) (Z.land (NOT x) z).
Definition Maj (x y z : Z) : Z :=
  Z.lxor (Z.lxor (Z.land x y) (Z.land x z)) (Z.land y z).
Definition Parity (x y z : Z) : Z := Z.lxor (Z.lxor x y) z.

(** The message schedule grows one word at a time from the block. *)
Fixpoint extend (next : list Z -> Z) (n : nat) (W : list Z) : list Z :=
  match n with
  | O => W
  | S n' => extend next n' (W ++ [next W])
  end.

Definition back (W : list Z) (k : nat) : Z := nth (List.length W - k) W 0.

End Words.

(** SHA-1, FIPS 180-4 section 6.1. *)

Definition sha1_state : Type := (Z * Z * Z * Z * Z)%type.

Definition sha1_H0 : sha1_state :=
  (0x67452301, 0xefcdab89, 0x98badcfe, 0x10325476, 0xc3d2e1f0).

Definition sha1_next (W : list Z) : Z :=
  ROTL 32 1 (Z.lxor (Z.lxor (Z.lxor (back W 3) (back W 8)) (back W 14)) (back W 16)).

Definition sha1_round (W : list Z) (s : sha1_state) (t : nat) : sha1_state :=
  let '(a, b, c, d, e) := s in
  let '(f, k) :=
    if (t <? 20)%nat then (Ch 32 b c d, 0x5a827999)
    else if (t <? 40)%nat then (Parity b c d, 0x6ed9eba1)
    else if (t <? 60)%nat then (Maj b c d, 0x8f1bbcdc)
    else (Parity b c d, 0xca62c1d6) in
  let T := wrap 32 (ROTL 32 5 a + f + e + k + nth t W 0) in
  (T, a, ROTL 32 30 b, c, d).

Definition sha1_block (s : sha1_state) (M : list Z) : sha1_state :=
  let W := extend sha1_next 64 M in
  let '(a, b, c, d, e) := fold_left (sha1_round W) (seq 0 80) s in
  let '(h0, h1, h2, h3, h4) := s in
  (wrap 32 (h0 + a), wrap 32 (h1 + b), wrap 32 (h2 + c), wrap 32 (h3 + d),
   wrap 32 (h4 + e)).

Definition sha1 (msg : list Z) : list Z :=
  let '(h0, h1, h2, h3, h4) :=
    fold_left sha1_block (blocks 64 4 (pad 64 8 msg)) sha1_H0 in
  be_bytes 4 h0 ++ be_bytes 4 h1 ++ be_bytes 4 h2 ++ be_bytes 4 h3
    ++ be_bytes 4 h4.

(** SHA-256 and SHA-512, FIPS 180-4 sections 6.2 and 6.4: one algorithm
    on words of 32 or 64 bits. *)

Definition sha2_state : Type := (Z * Z * Z * Z * Z * Z * Z * Z)%type.

Record sha2_params : Type := {
  wordBits : Z;
  wordBytes : nat;
  rounds : nat;
  K : list Z;
  H0 : sha2_state;
  bigSigma0 : Z * Z * Z;
  bigSigma1 : Z * Z * Z;
  smallSigma0 : Z * Z * Z;
  smallSigma1 : Z * Z * Z
}.

Section SHA2.

Variable P : sha2_params.

Definition Sigma (r : Z * Z * Z) (x : Z) : Z :=
  let '(r1, r2, r3) := r in
  Z.lxor (Z.lxor (ROTR (wordBits P) r1 x) (ROTR (wordBits P) r2 x))
    (ROTR (wordBits P) r3 x).

Definition sigma (r : Z * Z * Z) (x : Z) : Z :=
  let '(r1, r2, r3) := r in
  Z.lxor (Z.lxor (ROTR (wordBits P) r1 x) (ROTR (wordBits P) r2 x)) (SHR r3 x).

Definition sha2_next (W : list Z) : Z :=
  wrap (wordBits P)
    (sigma (smallSigma1 P) (back W 2) + back W 7
     + sigma (smallSigma0 P) (back W 15) + back W 16).

Definition sha2_round (W : list Z) (s : sha2_state) (t : nat) : sha2_state :=
  let '(a, b, c, d, e, f, g, h) := s in
  let T1 :=
    h + Sigma (bigSigma1 P) e + Ch (wordBits P) e f g + nth t (K P) 0
    + nth t W 0 in
  let T2 := Sigma (bigSigma0 P) a + Maj a b c in
  (wrap (wordBits P) (T1 + T2), a, b, c, wrap (wordBits P) (d + T1), e, f, g).

Definition sha2_block (s : sha2_state) (M : list Z) : sha2_state :=
  let W := extend sha2_next (rounds P - 16) M in
  let '(a, b, c, d, e, f, g, h) :=
    fold_left (sha2_round W) (seq 0 (rounds P)) s in
  let '(h0, h1, h2, h3, h4, h5, h6, h7) := s in
  let add x y := wrap (wordBits P) (x + y) in
  (add h0 a, add h1 b, add h2 c, add h3 d, add h4 e, add h5 f, add h6 g,
   add h7 h).

Definition sha2 (msg : list Z) : list Z :=
  let n := wordBytes P in
  let '(h0, h1, h2, h3, h4, h5, h6, h7) :=
    fold_left sha2_block
      (blocks (16 * n) n (pad (16 * n) (2 * n) msg)) (H0 P) in
  be_bytes n h0 ++ be_bytes n h1 ++ be_bytes n h2 ++ be_bytes n h3
    ++ be_bytes n h4 ++ be_bytes n h5 ++ be_bytes n h6 ++ be_bytes n h7.

End SHA2.

(** The constants of section 4.2 and the initial values of section 5.3
    are the leading fractional bits of the cube roots and of the square
    roots of the first primes. *)

Definition primes : list Z := [
    2; 3; 5; 7; 11; 13; 17; 19; 23; 29; 31; 37; 41; 43; 47; 53;
    59; 61; 67; 71; 73; 79; 83; 89; 97; 101; 103; 107; 109; 113; 127; 131;
    137; 139; 149; 151; 157; 163; 167; 173; 179; 181; 191; 193; 197; 199; 211; 223;
    227; 229; 233; 239; 241; 251; 257; 263; 269; 271; 277; 281; 283; 293; 307; 311;
    313; 317; 331; 337; 347; 349; 353; 359; 367; 373; 379; 383; 389; 397; 401; 409 ].

(** The floor of a cube root, one bit at a time from the top. *)
Fixpoint cbrtFrom (fuel : nat) (n bit acc : Z) : Z :=
  match fuel with
  | O => acc
  | S fuel' =>
      cbrtFrom fuel' n (bit / 2)
        (if (acc + bit) ^ 3 <=? n then acc + bit else acc)
  end.

Definition cbrt (n : Z) : Z :=
  let top := Z.log2 n / 3 + 1 in
  cbrtFrom (S (Z.to_nat top)) n (2 ^ top) 0.

(** The first [w] bits of the fractional part of a root of [p]. *)
Definition cbrtFraction (w p : Z) : Z := cbrt (p * 2 ^ (3 * w)) mod 2 ^ w.
Definition sqrtFraction (w p : Z) : Z := Z.sqrt (p * 2 ^ (2 * w)) mod 2 ^ w.

Definition initialState (w : Z) : sha2_state :=
  match map (sqrtFraction w) (firstn 8 primes) with
  | [a; b; c; d; e; f; g; h] => (a, b, c, d, e, f, g, h)
  | _ => (0, 0, 0, 0, 0, 0, 0, 0)
  end.

Definition K256 : list Z :=
  Eval vm_compute in map (cbrtFraction 32) (firstn 64 primes).
Definition H256 : sha2_state := Eval vm_compute in initialState 32.
Definition K512 : list Z :=
  Eval vm_compute in map (cbrtFraction 64) (firstn 80 primes).
Definition H512 : sha2_state := Eval vm_compute in initialState 64.

Definition sha256_params : sha2_params := {|
  wordBits := 32;
  wordBytes := 4;
  rounds := 64;
  K := K256;
  H0 := H256;
  bigSigma0 := (2, 13, 22);
  bigSigma1 := (6, 11, 25);
  smallSigma0 := (7, 18, 3);
  smallSigma1 := (17, 19, 10)
|}.

Definition sha512_params : sha2_params := {|
  wordBits := 64;
  wordBytes := 8;
  rounds := 80;
  K := K512;
  H0 := H512;
  bigSigma0 := (28, 34, 39);
  bigSigma1 := (14, 18, 41);
  smallSigma0 := (1, 8, 7);
  smallSigma1 := (19, 61, 6)
|}.

Definition sha256 : list Z -> list Z := sha2 sha256_params.
Definition sha512 : list Z -> list Z := sha2 sha512_params.

(** HMAC, RFC 2104, for a hash [H] of block size [B] bytes. *)
Definition hmac (H : list Z -> list Z) (B : nat) (key text : list Z) : list Z :=
  let k0 := if (B <? List.length key)%nat then H key else key in
  let k := k0 ++ repeat 0 (B - List.length k0) in
  H (map (Z.lxor 0x5c) k ++ H (map (Z.lxor 0x36) k ++ text)).

(** Modelled from the spec: the keyed hashes of crypto-js are outside the
    sources; section 6 gives them standard HMAC semantics over the
    significant bytes of the message and of the key. *)
Definition HmacOf (H : list Z -> list Z) (B : nat) : Hash :=
  fun message key =>
    CryptoJS.create (hmac H B (wordArrayToBytes key) (wordArrayToBytes message)).

(** Base32, RFC 4648 section 6. *)

Definition alphabet : list ascii :=
  list_ascii_of_string "ABCDEFGHIJKLMNOPQRSTUVWXYZ234567".

Definition symbolValue (c : ascii) : option Z :=
  let n := Z.of_N (N_of_ascii c) in
  if (65 <=? n) && (n <=? 90) then Some (n - 65)
  else if (50 <=? n) && (n <=? 55) then Some (n - 24)
  else None.

Fixpoint dropPadding (cs : list ascii) : list ascii :=
  match cs with
  | [] => []
  | c :: rest =>
      match dropPadding rest with
      | [] => if Ascii.eqb c "="%char then [] else [c]
      | kept => c :: kept
      end
  end.

(** [buffer] holds [bits] pending bits; a byte leaves when eight are
    there. *)
Fixpoint decodeFrom (cs : list ascii) (buffer : Z) (bits : Z) : option (list Z) :=
  match cs with
  | [] => Some []
  | c :: rest =>
      match symbolValue c with
      | None => None
      | Some v =>
          let buffer' := buffer * 32 + v in
          let bits' := bits + 5 in
          if 8 <=? bits' then
            option_map (cons (Z.shiftr buffer' (bits' - 8)))
              (decodeFrom rest (buffer' mod 2 ^ (bits' - 8)) (bits' - 8))
          else decodeFrom rest buffer' bits'
      end
  end.

(** Modelled from the spec: the base32 codec is outside the sources;
    section 6 makes it the transport encoding of the key bytes, here that
    of RFC 4648, and a text with a foreign character is rejected. *)
Definition decode (text : string) : option (list Z) :=
  decodeFrom (dropPadding (list_ascii_of_string text)) 0 0.

Fixpoint encodeFrom (bytes : list Z) (buffer : Z) (bits : Z) : list ascii :=
  match bytes with
  | [] =>
      if 0 <? bits
      then [nth (Z.to_nat (Z.shiftl buffer (5 - bits))) alphabet "A"%char]
      else []
  | b :: rest =>
      let buffer' := buffer * 256 + b in
      let bits' := bits + 8 in
      if 10 <=? bits' then
        nth (Z.to_nat (Z.shiftr buffer' (bits' - 5))) alphabet "A"%char
        :: nth (Z.to_nat (Z.shiftr buffer' (bits' - 10) mod 32)) alphabet "A"%char
        :: encodeFrom rest (buffer' mod 2 ^ (bits' - 10)) (bits' - 10)
      else
        nth (Z.to_nat (Z.shiftr buffer' (bits' - 5))) alphabet "A"%char
        :: encodeFrom rest (buffer' mod 2 ^ (bits' - 5)) (bits' - 5)
  end.

Definition encode (bytes : list Z) : string :=
  let cs := encodeFrom bytes 0 0 in
  string_of_list_ascii
    (cs ++ repeat "="%char ((8 - List.length cs mod 8) mod 8)).

(** The collaborators the test vectors are computed with. *)
#[export] Instance externals : Externals := {|
  HmacSHA1 := HmacOf sha1 64;
  HmacSHA256 := HmacOf sha256 64;
  HmacSHA512 := HmacOf sha512 128;
  base32_decode := decode;
  base32_encode := encode
|}.

End Standard.


(** ** Vocabulary of the properties *)

(** [calls this this']: a sequence of method calls takes the instance
    from [this] to [this']. *)
Inductive calls {E : Externals} (this : OTP.t) : OTP.t -> Prop :=
| calls_none : calls this this
| calls_hotp options this' :
    calls this this' -> calls this (OTP.after (OTP.hotp options) this')
| calls_totp now options this' :
    calls this this' -> calls this (OTP.after (OTP.totp now options) this')
| calls_hotpVerify options this' :
    calls this this' -> calls this (OTP.after (OTP.hotpVerify options) this')
| calls_totpVerify now options this' :
    calls this this' -> calls this (OTP.after (OTP.totpVerify now options) this').

(** The instances a program can hold: made by the constructor, then used
    through the methods. *)
Definition instance {E : Externals} (this : OTP.t) : Prop :=
  exists randomBytes options this0,
    OTP.new randomBytes options = Return this0 /\ calls this0 this.

(** A byte. *)
Definition isByte (b : Z) : Prop := 0 <= b < 256.

(** The digest [hotp] truncates, for the key the secret decodes to. *)
Definition digestOf (this : OTP.t) (counter : JS.number) (key : list Z) : list Z :=
  wordArrayToBytes
    (OTP.hash this (numberToWordArray counter) (CryptoJS.create key)).

(** The two hexadecimal digits of a byte. *)
Definition hexPair (b : Z) : list Z := [b / 16; b mod 16].

(** The byte the loop of [wordArrayToBytes] pushes at index [i]. *)
Definition byteOfWords (ws : list Z) (i : nat) : Z :=
  JS.and32
    (JS.ushr32 (JS.at0 ws (Z.of_nat (i / 4))) (24 - Z.of_nat (i mod 4) * 8))
    255.

(** The instance a sequence of [totp] calls leaves; a call is the time
    of the clock and the options. *)
Fixpoint afterTotps {E : Externals} (calls : list (Z * TOTPOptions.t))
         (this : OTP.t) : OTP.t :=
  match calls with
  | [] => this
  | (now, options) :: rest =>
      afterTotps rest (OTP.after (OTP.totp now options) this)
  end.

(** A [totp] call whose period override is absent or zero. *)
Definition noOverride (call : Z * TOTPOptions.t) : Prop :=
  TOTPOptions.period (snd call) = None \/ TOTPOptions.period (snd call) = Some 0.


(** The period a [totp] call works with: the override if it is a
    non-zero number, the stored one otherwise. *)
Definition periodFor (options : TOTPOptions.t) (this : OTP.t) : Z :=
  match TOTPOptions.period options with
  | Some p => if p =? 0 then OTP.period this else p
  | None => OTP.period this
  end.

(** The time a call works with: the one given, or the clock. *)
Definition timestampFor (now : Z) (timestamp : option Z) : Z :=
  match timestamp with Some ts => ts | None => now end.

(** The window a [totpVerify] call works with. *)
Definition windowFor (options : TOTPVerifyOptions.t) : Z :=
  match TOTPVerifyOptions.window options with Some w => w | None => 1 end.

(** The keyed hash an algorithm name selects. *)
Definition hashOf {E : Externals} (algorithm : string) : option Hash :=
  if String.eqb algorithm "SHA1" then Some HmacSHA1
  else if String.eqb algorithm "SHA256" then Some HmacSHA256
  else if String.eqb algorithm "SHA512" then Some HmacSHA512
  else None.

(** The derivation of a code in the words of the specification, section
    4.2, to compare [OTP.hotp] with. *)
Module Spec.

(** Step 2: the counter on 8 bytes, big-endian. *)
Definition counterBytes (c : Z) : list Z :=
  map (fun k => c / 2 ^ (8 * k) mod 256) [7; 6; 5; 4; 3; 2; 1; 0].

(** Step 4: the low nibble of the last byte of the digest. *)
Definition offset (digest : list Z) : Z := last digest 0 mod 16.

(** Step 4: four bytes from [offset], the top bit of the first one
    dropped, read big-endian. *)
Definition binCode (digest : list Z) : Z :=
  let byte k := nth (Z.to_nat (offset digest) + k) digest 0 in
  (byte 0%nat mod 128) * 2 ^ 24 + byte 1%nat * 2 ^ 16 + byte 2%nat * 2 ^ 8
  + byte 3%nat.

(** [n] on exactly [k] digits in base [radix], most significant first. *)
Fixpoint positional (radix : Z) (k : nat) (n : Z) : list Z :=
  match k with
  | O => []
  | S k' => positional radix k' (n / radix) ++ [n mod radix]
  end.

(** The character of a decimal digit. *)
Definition decimalDigit (d : Z) : ascii := ascii_of_N (48 + Z.to_N d).

(** Step 6: [n] on exactly [k] decimal digits, zeros to the left. *)
Definition decimal (k : nat) (n : Z) : string :=
  string_of_list_ascii (map decimalDigit (positional 10 k n)).

(** Steps 1 to 6. *)
Definition code {E : Externals} (this : OTP.t) (c : Z) : option string :=
  match base32_decode (OTP.secret this), hashOf (OTP.algorithm this) with
  | Some rawSecret, Some hmac =>
      let digest :=
        wordArrayToBytes
          (hmac (CryptoJS.create (counterBytes c)) (CryptoJS.create rawSecret)) in
      Some (decimal (OTP.digits this)
              (binCode digest mod 10 ^ Z.of_nat (OTP.digits this)))
  | _, _ => None
  end.

End Spec.

(** The RFC 4226 and RFC 6238 test material. *)
Module Vectors.

#[local] Existing Instance Standard.externals.

Definition secret : string := "GEZDGNBVGY3TQOJQGEZDGNBVGY3TQOJQ".

Definition noRandom : WordArray := mkWordArray [] 0.

Definition hex (bs : list Z) : string :=
  string_of_list_ascii
    (flat_map (fun b => [JS.digitChar (b / 16); JS.digitChar (b mod 16)]) bs).

(** The instance [new OTP({ secret })] makes. *)
Definition this6 : OTP.t := OTP.mk "SHA1" 6 secret 30 HmacSHA1.

(** The instance [new OTP({ secret, algorithm: 'SHA1', digits: 8 })] makes. *)
Definition this8 : OTP.t := OTP.mk "SHA1" 8 secret 30 HmacSHA1.

(** [new OTP({ secret })]. *)
Definition otp : outcome OTP.t :=
  OTP.new noRandom (OTPGeneratorOptions.mk None None None (Some secret)).

(** [new OTP({ secret, algorithm: 'SHA1', digits: 8 })]. *)
Definition otp8 : outcome OTP.t :=
  OTP.new noRandom
    (OTPGeneratorOptions.mk (Some "SHA1") (Some 8%nat) None (Some secret)).

(** Instances with 12 digits under SHA256, with no digit, with a period
    of 0, and with a secret that is no base32 text. *)
Definition this12 : OTP.t := OTP.mk "SHA256" 12 secret 30 HmacSHA256.
Definition thisNoDigits : OTP.t := OTP.mk "SHA1" 0 secret 30 HmacSHA1.
Definition thisNoPeriod : OTP.t := OTP.mk "SHA1" 6 secret 0 HmacSHA1.
Definition thisBadSecret : OTP.t := OTP.mk "SHA1" 6 "not base32" 30 HmacSHA1.


(** Twenty bytes for [CryptoJS.lib.WordArray.random(20)] to return. *)
Definition randomBytes20 : WordArray :=
  CryptoJS.create (Standard.bytes_of_string "12345678901234567890").

(** One word of 32 bits set, for 8 significant bytes. *)
Definition oneWord : WordArray := mkWordArray [-1] 8.

(** Calls on an instance the constructor returned. *)
Definition on {A} (o : outcome OTP.t) (m : OTP.M A) : outcome A :=
  match o with
  | Return this => OTP.result m this
  | Throw e => Throw e
  end.

Definition hotpAt (o : outcome OTP.t) (counter : Z) : outcome string :=
  on o (OTP.hotp (HOTPOptions.mk (JS.Int counter))).

(** [totp({ timestamp: seconds * 1000 })], the clock unread. *)
Definition totpAt (o : outcome OTP.t) (seconds : Z) : outcome string :=
  on o (OTP.totp 0 (TOTPOptions.mk None (Some (seconds * 1000)))).

End Vectors.

(** ** Properties *)

Import OTP.
Local Open Scope otp_scope.

(** *** The collaborators agree with their standards *)

Module StandardTests.
Import Standard Vectors.

Example sha1_abc :
  hex (sha1 (bytes_of_string "abc")) = "a9993e364706816aba3e25717850c26c9cd0d89d".
Proof. vm_compute. reflexivity. Qed.

Example sha256_abc :
  hex (sha256 (bytes_of_string "abc"))
  = "ba7816bf8f01cfea414140de5dae2223b00361a396177a9cb410ff61f20015ad".
Proof. vm_compute. reflexivity. Qed.

Example sha512_abc :
  hex (sha512 (bytes_of_string "abc"))
  = String.append
      "ddaf35a193617abacc417349ae20413112e6fa4e89a97ea20a9eeee64b55d39a"
      "2192992a274fc1a836ba3c23a3feebbd454d4423643ce80e2a9ac94fa54ca49f".
Proof. vm_compute. reflexivity. Qed.

Example sha2_constants :
  nth 0 (K sha256_params) 0 = 0x428a2f98
  /\ nth 63 (K sha256_params) 0 = 0xc67178f2
  /\ H0 sha256_params
     = (0x6a09e667, 0xbb67ae85, 0x3c6ef372, 0xa54ff53a,
        0x510e527f, 0x9b05688c, 0x1f83d9ab, 0x5be0cd19)
  /\ nth 0 (K sha512_params) 0 = 0x428a2f98d728ae22
  /\ nth 79 (K sha512_params) 0 = 0x6c44198c4a475817
  /\ K sha256_params = map (cbrtFraction 32) (firstn 64 primes)
  /\ K sha512_params = map (cbrtFraction 64) (firstn 80 primes).
Proof. vm_compute. tauto. Qed.

Example hmac_sha512_vector :
  hex (hmac sha512 128 (bytes_of_string "12345678901234567890")
         [0; 0; 0; 0; 0; 0; 0; 1])
  = String.append
      "68a0d9fc7f6bc8e3060a4ca7999603b6c35d4af7b29e18c54f4f918c2440b47b"
      "6d8e2b2b46df25f1243068a9262d81c8879e07d54991a5ec783db7384b0b910d".
Proof. vm_compute. reflexivity. Qed.

Example hmac_sha1_long_key :
  hex (hmac sha1 64 (repeat 107 200) (bytes_of_string "hello"))
  = "dfd9af3c81b93afd0001336b24b1ded4f3e37a64".
Proof. vm_compute. reflexivity. Qed.

Example hmac_sha256_long_key :
  hex (hmac sha256 64 (repeat 107 200) (bytes_of_string "hello"))
  = "174c64caec6f5e924a5df231d79fbb52a10cd73d1b575ded749f9a8ab81c4886".
Proof. vm_compute. reflexivity. Qed.

Example base32_foobar :
  encode (bytes_of_string "foobar") = "MZXW6YTBOI======"
  /\ decode "MZXW6YTBOI======" = Some (bytes_of_string "foobar")
  /\ decode "mzxw6ytboi" = None.
Proof. vm_compute. repeat split; reflexivity. Qed.

End StandardTests.

Section EngineFacts.

Context {E : Externals}.

(** *** [hotp] reads the instance and leaves it as it was *)

Lemma hotp_after (options : HOTPOptions.t) (this : OTP.t) :
  after (hotp options) this = this.
Proof.
  unfold after, hotp, decodeSecret, bind, get, ret, throw.
  destruct (base32_decode (secret this)); reflexivity.
Qed.

Lemma hotp_reads (options : HOTPOptions.t) (this this' : OTP.t) :
  secret this = secret this' ->
  digits this = digits this' ->
  hash this = hash this' ->
  result (hotp options) this = result (hotp options) this'.
Proof.
  destruct this as [a d s p h], this' as [a' d' s' p' h'].
  cbv beta iota delta [secret digits hash]. intros <- <- <-.
  unfold result, hotp, decodeSecret, bind, get, ret, throw.
  cbv beta iota delta [secret digits hash].
  destruct (base32_decode s); reflexivity.
Qed.

Lemma hotp_returns (options : HOTPOptions.t) (this : OTP.t) (key : list Z) :
  base32_decode (secret this) = Some key ->
  exists otp, result (hotp options) this = Return otp.
Proof.
  intros Hk.
  unfold result, hotp, decodeSecret, bind, get, ret, throw.
  rewrite Hk. eexists. reflexivity.
Qed.

Lemma hotp_throws (options : HOTPOptions.t) (this : OTP.t) (e : error) :
  result (hotp options) this = Throw e ->
  e = CodecError (secret this) /\ base32_decode (secret this) = None.
Proof.
  unfold result, hotp, decodeSecret, bind, get, ret, throw.
  destruct (base32_decode (secret this)); cbv beta iota delta [fst]; intros H.
  - discriminate.
  - inversion H. split; reflexivity.
Qed.

Lemma hotp_rejects (options : HOTPOptions.t) (this : OTP.t) :
  base32_decode (secret this) = None ->
  result (hotp options) this = Throw (CodecError (secret this)).
Proof.
  intros Hk.
  unfold result, hotp, decodeSecret, bind, get, ret, throw.
  rewrite Hk. reflexivity.
Qed.

Lemma hotp_run (options : HOTPOptions.t) (this : OTP.t) :
  hotp options this = (result (hotp options) this, this).
Proof.
  rewrite <- (hotp_after options this) at 3.
  unfold result, after. destruct (hotp options this); reflexivity.
Qed.

(** *** What [totp] does to the instance *)

Lemma totp_after (now : Z) (options : TOTPOptions.t) (this : OTP.t) :
  after (totp now options) this
  = mk (algorithm this) (digits this) (secret this) (periodFor options this)
       (hash this).
Proof.
  unfold after, totp, periodFor, bind, get, set_period, ret.
  destruct this as [a d s p h]; simpl.
  destruct (TOTPOptions.period options) as [q |]; [destruct (q =? 0) |];
    simpl; rewrite hotp_run; reflexivity.
Qed.

Lemma totp_result (now : Z) (options : TOTPOptions.t) (this : OTP.t) :
  result (totp now options) this
  = result
      (hotp (HOTPOptions.mk
               (JS.floor_div_div (timestampFor now (TOTPOptions.timestamp options)) 1000
                  (periodFor options this))))
      this.
Proof.
  unfold result at 1. unfold totp, periodFor, timestampFor, bind, get, set_period, ret.
  destruct this as [a d s p h]; simpl.
  destruct (TOTPOptions.period options) as [q |]; [destruct (q =? 0) |];
    simpl; rewrite hotp_run; simpl; try reflexivity.
  apply hotp_reads; reflexivity.
Qed.

(** *** The loop of [totpVerify] *)

Lemma totpVerify_for_run (n : nat) (i : Z) (code : string) (timestamp : Z)
      (this : OTP.t) :
  totpVerify_for n i code timestamp this
  = (result (totpVerify_for n i code timestamp) this, this).
Proof.
  revert i. induction n as [| n IH]; intros i.
  - reflexivity.
  - unfold result. simpl. unfold bind, get. rewrite hotp_run.
    destruct (result (hotp _) this) as [otp | e]; [| reflexivity].
    destruct (String.eqb otp code); [reflexivity |].
    rewrite IH. reflexivity.
Qed.

Lemma totpVerify_for_step (n : nat) (i : Z) (code : string) (timestamp : Z)
      (this : OTP.t) :
  result (totpVerify_for (S n) i code timestamp) this
  = match
      result
        (hotp (HOTPOptions.mk
                 (JS.add (JS.floor_div_div timestamp 1000 (period this)) i)))
        this
    with
    | Return otp =>
        if String.eqb otp code then Return true
        else result (totpVerify_for n (i + 1) code timestamp) this
    | Throw e => Throw e
    end.
Proof.
  unfold result at 1. simpl. unfold bind, get. rewrite hotp_run.
  destruct (result (hotp _) this) as [otp | e]; [| reflexivity].
  destruct (String.eqb otp code); reflexivity.
Qed.

Lemma totpVerify_for_true (n : nat) (i : Z) (code : string) (timestamp : Z)
      (this : OTP.t) :
  result (totpVerify_for n i code timestamp) this = Return true
  <-> exists j,
        i <= j < i + Z.of_nat n
        /\ result
             (hotp (HOTPOptions.mk
                      (JS.add (JS.floor_div_div timestamp 1000 (period this)) j)))
             this
           = Return code.
Proof.
  revert i. induction n as [| n IH]; intros i.
  - split.
    + discriminate.
    + intros [j [Hj _]]. lia.
  - rewrite totpVerify_for_step.
    destruct (result (hotp _) this) as [otp | e] eqn:Hotp.
    + destruct (String.eqb otp code) eqn:Heq.
      * apply String.eqb_eq in Heq. subst otp. split; [| reflexivity].
        intros _. exists i. split; [lia | exact Hotp].
      * apply String.eqb_neq in Heq. rewrite IH. split.
        -- intros [j [Hj Hc]]. exists j. split; [lia | exact Hc].
        -- intros [j [Hj Hc]]. exists j. split; [| exact Hc].
           assert (j <> i) by (intros ->; congruence). lia.
    + split; [discriminate |].
      intros [j [_ Hc]].
      destruct (hotp_throws _ _ _ Hotp) as [_ Hnone].
      rewrite (hotp_rejects _ _ Hnone) in Hc. discriminate.
Qed.


Lemma totpVerify_after (now : Z) (options : TOTPVerifyOptions.t) (this : OTP.t) :
  after (totpVerify now options) this = this.
Proof.
  unfold after, totpVerify. rewrite totpVerify_for_run. reflexivity.
Qed.

Lemma totpVerify_true (now : Z) (options : TOTPVerifyOptions.t) (this : OTP.t) :
  result (totpVerify now options) this = Return true
  <-> exists i,
        - windowFor options <= i <= windowFor options
        /\ result
             (hotp (HOTPOptions.mk
                      (JS.add
                         (JS.floor_div_div
                            (timestampFor now (TOTPVerifyOptions.timestamp options))
                            1000 (period this)) i)))
             this
           = Return (TOTPVerifyOptions.code options).
Proof.
  unfold totpVerify. rewrite totpVerify_for_true.
  fold (timestampFor now (TOTPVerifyOptions.timestamp options)).
  fold (windowFor options).
  split; intros [j [Hj Hc]]; exists j; (split; [lia | exact Hc]).
Qed.

Lemma totpVerify_negative_window (now : Z) (options : TOTPVerifyOptions.t)
      (this : OTP.t) :
  windowFor options < 0 -> result (totpVerify now options) this = Return false.
Proof.
  intros Hw. unfold totpVerify. fold (windowFor options).
  replace (Z.to_nat (windowFor options - - windowFor options + 1)) with O by lia.
  reflexivity.
Qed.


(** *** [hotpVerify] *)

Lemma hotpVerify_result (options : HOTPVerify.t) (this : OTP.t) :
  result (hotpVerify options) this
  = match result (hotp (HOTPOptions.mk (HOTPVerify.counter options))) this with
    | Return otp => Return (String.eqb otp (HOTPVerify.code options))
    | Throw e => Throw e
    end.
Proof.
  unfold result at 1. unfold hotpVerify, bind, ret. rewrite hotp_run.
  destruct (result (hotp _) this); reflexivity.
Qed.

Lemma hotpVerify_after (options : HOTPVerify.t) (this : OTP.t) :
  after (hotpVerify options) this = this.
Proof.
  unfold after, hotpVerify, bind, ret. rewrite hotp_run.
  destruct (result (hotp _) this); reflexivity.
Qed.

(** *** The constructor, and what survives the calls *)

Lemma new_fields (randomBytes : WordArray) (options : OTPGeneratorOptions.t)
      (this : OTP.t) :
  new randomBytes options = Return this ->
  hashOf (algorithm this) = Some (hash this)
  /\ period this
     = match OTPGeneratorOptions.period options with Some p => p | None => 30 end
  /\ digits this
     = match OTPGeneratorOptions.digits options with Some d => d | None => 6%nat end
  /\ algorithm this
     = match OTPGeneratorOptions.algorithm options with
       | Some a => a | None => "SHA1" end.
Proof.
  unfold new, setHash, bind, get, set_hash, throw, hashOf. simpl.
  set (a := match OTPGeneratorOptions.algorithm options with
            | Some a => a | None => "SHA1" end).
  destruct (String.eqb a "SHA1") eqn:H1;
    [| destruct (String.eqb a "SHA256") eqn:H2;
       [| destruct (String.eqb a "SHA512") eqn:H3]];
    simpl; intros H; inversion H; subst; simpl;
    rewrite ?H1, ?H2, ?H3; repeat split; reflexivity.
Qed.

Lemma new_throws (randomBytes : WordArray) (options : OTPGeneratorOptions.t)
      (e : error) :
  new randomBytes options = Throw e ->
  exists a,
    OTPGeneratorOptions.algorithm options = Some a
    /\ e = InvalidAlgorithmError a /\ hashOf a = None.
Proof.
  unfold new, setHash, bind, get, set_hash, throw, hashOf. simpl.
  destruct (OTPGeneratorOptions.algorithm options) as [a |]; simpl.
  - destruct (String.eqb a "SHA1") eqn:H1; [discriminate |].
    destruct (String.eqb a "SHA256") eqn:H2; [discriminate |].
    destruct (String.eqb a "SHA512") eqn:H3; [discriminate |].
    simpl. intros H. inversion H. exists a.
    rewrite H1, H2, H3. repeat split; reflexivity.
  - discriminate.
Qed.

Lemma calls_frame (this this' : OTP.t) :
  calls this this' ->
  algorithm this' = algorithm this /\ digits this' = digits this
  /\ secret this' = secret this /\ hash this' = hash this.
Proof.
  induction 1 as [| options this' _ IH | now options this' _ IH
                  | options this' _ IH | now options this' _ IH].
  - repeat split; reflexivity.
  - rewrite hotp_after. exact IH.
  - rewrite totp_after. simpl. exact IH.
  - rewrite hotpVerify_after. exact IH.
  - rewrite totpVerify_after. exact IH.
Qed.

Lemma instance_hash (this : OTP.t) :
  instance this -> hashOf (algorithm this) = Some (hash this).
Proof.
  intros (r & o & this0 & Hnew & Hcalls).
  destruct (calls_frame _ _ Hcalls) as (Ha & _ & _ & Hh).
  rewrite Ha, Hh. apply (new_fields _ _ _ Hnew).
Qed.

(** *** Sums of counters *)

Lemma nearestEven_multiple (x d : Z) : 0 < d -> JS.nearestEven (x * d) d = x.
Proof.
  intros Hd. unfold JS.nearestEven.
  rewrite Z.div_mul, Z.mod_mul by lia.
  destruct (Z.ltb_spec (2 * 0) d) as [| Hge]; [reflexivity | lia].
Qed.

(** An integer of at most 53 bits is a double: rounding leaves it. *)
Lemma round64_integer (s : Z) :
  Z.abs s <= 2 ^ 53 -> JS.floor (JS.round64 (inject_Z s)) = JS.Int s.
Proof.
  intros Hs. unfold JS.round64. cbn [Qnum Qden inject_Z].
  destruct (Z.eqb_spec s 0) as [-> | Hne]; [reflexivity |].
  assert (Ha : 0 < Z.abs s) by lia.
  set (a := Z.abs s) in *.
  assert (Hlog : 0 <= Z.log2 a <= 53).
  { split; [apply Z.log2_nonneg |].
    change 53 with (Z.log2 (2 ^ 53)). apply Z.log2_le_mono. exact Hs. }
  pose proof (Z.log2_spec a Ha) as [Hlow Hhigh].
  assert (Hilog : JS.ilog2 a 1 = Z.log2 a).
  { unfold JS.ilog2. change (Z.log2 1) with 0. rewrite Z.sub_0_r.
    destruct (Z.leb_spec 0 (Z.log2 a)) as [_ |]; [| lia].
    destruct (Z.ltb_spec a (1 * 2 ^ Z.log2 a)) as [|]; [lia | reflexivity]. }
  rewrite Hilog.
  rewrite (Z.max_l (Z.log2 a - 52) (- 1074)) by lia.
  assert (Hsgn : Z.sgn s * a = s) by (unfold a; destruct s; reflexivity).
  destruct (Z.leb_spec 0 (Z.log2 a - 52)) as [Hpos | Hneg].
  - assert (He : Z.log2 a - 52 = 0 \/ Z.log2 a - 52 = 1) by lia.
    destruct He as [He | He]; rewrite He.
    + change (1 * 2 ^ 0) with 1. change (2 ^ 0) with 1.
      pose proof (nearestEven_multiple a 1 ltac:(lia)) as Hn.
      rewrite Z.mul_1_r in Hn. rewrite Hn, !Z.mul_1_r.
      destruct (Z.leb_spec (2 ^ 1024) a) as [Hbig |].
      * assert (2 ^ 53 < 2 ^ 1024) by reflexivity. lia.
      * cbn [andb JS.floor]. rewrite Qfloor_Z. f_equal. exact Hsgn.
    + assert (Heq : a = 2 ^ 53).
      { replace (Z.log2 a) with 53 in Hlow by lia. lia. }
      rewrite Heq. change (1 * 2 ^ 1) with 2.
      change (JS.nearestEven (2 ^ 53) 2) with (2 ^ 52).
      change (2 ^ 1024 <=? 2 ^ 52 * 2 ^ 1) with false.
      cbn [andb JS.floor]. rewrite Qfloor_Z. f_equal.
      rewrite <- Z.mul_assoc. change (2 ^ 52 * 2 ^ 1) with (2 ^ 53).
      rewrite <- Heq. exact Hsgn.
  - cbn [andb JS.floor].
    assert (Hpow : 0 < 2 ^ (- (Z.log2 a - 52)))
      by (apply Z.pow_pos_nonneg; lia).
    pose proof (nearestEven_multiple (a * 2 ^ (- (Z.log2 a - 52))) 1
                  ltac:(lia)) as Hn.
    rewrite Z.mul_1_r in Hn. rewrite Hn.
    unfold Qfloor. rewrite Z2Pos.id by exact Hpow.
    rewrite Z.mul_assoc, Z.div_mul by lia. f_equal. exact Hsgn.
Qed.

Lemma add_zero (x : JS.number) : JS.add x 0 = x.
Proof.
  destruct x as [z | | |]; reflexivity.
Qed.

(** A sum within 53 bits is exact. *)
Lemma add_safe (z i : Z) :
  Z.abs (z + i) <= 2 ^ 53 -> JS.add (JS.Int z) i = JS.Int (z + i).
Proof.
  intros Hs. cbn [JS.add].
  destruct (Z.eqb_spec i 0) as [-> | _].
  - f_equal. lia.
  - apply round64_integer. exact Hs.
Qed.

End EngineFacts.

(** *** The claims about verification, determinism and the period *)

Section EngineClaims.

Context {E : Externals}.


(** C4. [hotpVerify] returns [true] exactly when the candidate is the
    string [hotp] returns for that counter; so the code of a counter
    verifies at that counter, and the code of the next counter does not
    when the two codes differ.  The instance is left as it was. *)
Theorem hotpVerify_exact (this : OTP.t) (c : JS.number) (candidate : string) :
  (result (hotpVerify (HOTPVerify.mk c candidate)) this = Return true
   <-> result (hotp (HOTPOptions.mk c)) this = Return candidate)
  /\ (forall otp,
        result (hotp (HOTPOptions.mk c)) this = Return otp ->
        result (hotpVerify (HOTPVerify.mk c candidate)) this
        = Return (String.eqb otp candidate))
  /\ (forall key,
        base32_decode (secret this) = Some key ->
        exists otp,
          result (hotp (HOTPOptions.mk c)) this = Return otp
          /\ result (hotpVerify (HOTPVerify.mk c otp)) this = Return true)
  /\ (forall otp otp',
        result (hotp (HOTPOptions.mk c)) this = Return otp ->
        result (hotp (HOTPOptions.mk (JS.add c 1))) this = Return otp' ->
        otp' <> otp ->
        result (hotpVerify (HOTPVerify.mk c otp')) this = Return false)
  /\ after (hotpVerify (HOTPVerify.mk c candidate)) this = this.
Proof.
  repeat split.
  - rewrite hotpVerify_result.
    cbv beta iota delta [HOTPVerify.counter HOTPVerify.code].
    destruct (result (hotp _) this) as [otp | e]; [| discriminate].
    intros H. inversion H as [Heq]. apply String.eqb_eq in Heq. congruence.
  - intros H. rewrite hotpVerify_result.
    cbv beta iota delta [HOTPVerify.counter HOTPVerify.code].
    rewrite H, String.eqb_refl. reflexivity.
  - intros otp H. rewrite hotpVerify_result.
    cbv beta iota delta [HOTPVerify.counter HOTPVerify.code].
    rewrite H. reflexivity.
  - intros key Hk.
    destruct (hotp_returns (HOTPOptions.mk c) this key Hk) as [otp Hotp].
    exists otp. split; [exact Hotp |].
    rewrite hotpVerify_result.
    cbv beta iota delta [HOTPVerify.counter HOTPVerify.code].
    rewrite Hotp, String.eqb_refl. reflexivity.
  - intros otp otp' H _ Hne. rewrite hotpVerify_result.
    cbv beta iota delta [HOTPVerify.counter HOTPVerify.code].
    rewrite H. apply not_eq_sym in Hne.
    apply String.eqb_neq in Hne. rewrite Hne. reflexivity.
  - apply hotpVerify_after.
Qed.

(** C8. Two instances constructed with the same secret, algorithm and
    digits, whatever calls were made on each since, return the same
    string from [hotp] at the same counter; and [hotp] leaves the instance
    as it was, so that a repeated call returns the same string again. *)
Theorem hotp_deterministic
        (r1 r2 : WordArray) (o1 o2 : OTPGeneratorOptions.t)
        (a b a' b' : OTP.t) (options : HOTPOptions.t) :
  new r1 o1 = Return a ->
  new r2 o2 = Return b ->
  secret a = secret b ->
  algorithm a = algorithm b ->
  digits a = digits b ->
  calls a a' ->
  calls b b' ->
  result (hotp options) a' = result (hotp options) b'
  /\ after (hotp options) a' = a'
  /\ result (hotp options) (after (hotp options) a') = result (hotp options) a'.
Proof.
  intros Ha Hb Hs Halg Hd Hca Hcb.
  destruct (calls_frame _ _ Hca) as (_ & Hd1 & Hs1 & Hh1).
  destruct (calls_frame _ _ Hcb) as (_ & Hd2 & Hs2 & Hh2).
  destruct (new_fields _ _ _ Ha) as (Hha & _).
  destruct (new_fields _ _ _ Hb) as (Hhb & _).
  rewrite Halg, Hhb in Hha. inversion Hha as [Hh].
  split; [| split].
  - apply hotp_reads; congruence.
  - apply hotp_after.
  - rewrite hotp_after. reflexivity.
Qed.

(** C10. A period override of 0 is not applied: [totp] leaves the
    instance as it was, stored period included, and the counter of the
    call is computed with the stored period. *)
Theorem totp_zero_override_ignored (this : OTP.t) (now : Z) (timestamp : option Z) :
  after (totp now (TOTPOptions.mk (Some 0) timestamp)) this = this
  /\ period (after (totp now (TOTPOptions.mk (Some 0) timestamp)) this)
     = period this
  /\ result (totp now (TOTPOptions.mk (Some 0) timestamp)) this
     = result
         (hotp (HOTPOptions.mk
                  (JS.floor_div_div (timestampFor now timestamp) 1000
                     (period this))))
         this.
Proof.
  split; [| split].
  - rewrite totp_after. destruct this; reflexivity.
  - rewrite totp_after. reflexivity.
  - rewrite totp_result. reflexivity.
Qed.



(** C6, as amended. The period is not validated anywhere: the constructor
    throws only for an unsupported algorithm and stores the period it is
    given; [totp] throws only when the codec rejects the secret, and
    otherwise returns the code of the counter [Math.floor(timestamp / 1000
    / period)] for the period in force (the stored one under an absent or
    zero override, the override otherwise), zero and negative periods
    included. *)
Theorem totp_period_unchecked (this : OTP.t) (now : Z) (options : TOTPOptions.t) :
  (forall e,
     result (totp now options) this = Throw e ->
     e = CodecError (secret this) /\ base32_decode (secret this) = None)
  /\ (forall key,
        base32_decode (secret this) = Some key ->
        exists code, result (totp now options) this = Return code)
  /\ result (totp now options) this
     = result
         (hotp (HOTPOptions.mk
                  (JS.floor_div_div
                     (timestampFor now (TOTPOptions.timestamp options)) 1000
                     (periodFor options this))))
         this
  /\ (forall randomBytes generatorOptions e,
        new randomBytes generatorOptions = Throw e ->
        exists a, e = InvalidAlgorithmError a /\ hashOf a = None)
  /\ (forall randomBytes generatorOptions this0 p,
        new randomBytes generatorOptions = Return this0 ->
        OTPGeneratorOptions.period generatorOptions = Some p ->
        period this0 = p).
Proof.
  split; [| split; [| split; [| split]]].
  - intros e. rewrite totp_result. apply hotp_throws.
  - intros key Hk. rewrite totp_result. eapply hotp_returns. exact Hk.
  - apply totp_result.
  - intros r g e H. destruct (new_throws _ _ _ H) as (a & _ & He & Hn).
    exists a. split; assumption.
  - intros r g this0 p H Hp.
    destruct (new_fields _ _ _ H) as (_ & Hper & _). rewrite Hper, Hp.
    reflexivity.
Qed.

End EngineClaims.

(** *** Digits and strings *)

Section Digits.

Variable radix : Z.
Hypothesis radix_ge_2 : 2 <= radix.

Lemma positional_length (k : nat) (n : Z) :
  List.length (Spec.positional radix k n) = k.
Proof.
  revert n. induction k as [| k IH]; intros n; simpl.
  - reflexivity.
  - rewrite length_app, IH. simpl. lia.
Qed.

Lemma positional_range (k : nat) (n : Z) :
  Forall (fun d => 0 <= d < radix) (Spec.positional radix k n).
Proof.
  revert n. induction k as [| k IH]; intros n; simpl.
  - constructor.
  - apply Forall_app. split; [apply IH |].
    constructor; [| constructor]. apply Z.mod_pos_bound. lia.
Qed.

Lemma positional_zero (k : nat) : Spec.positional radix k 0 = repeat 0 k.
Proof.
  induction k as [| k IH]; simpl.
  - reflexivity.
  - rewrite Z.div_0_l, Z.mod_0_l, IH by lia.
    change [0] with (repeat 0 1). rewrite <- repeat_app.
    replace (k + 1)%nat with (S k) by lia. reflexivity.
Qed.

(** Digits beyond the size of the number are zeros to the left. *)
Lemma positional_pad (k d : nat) (n : Z) :
  0 <= n < radix ^ Z.of_nat k ->
  (k <= d)%nat ->
  Spec.positional radix d n = repeat 0 (d - k) ++ Spec.positional radix k n.
Proof.
  revert d n. induction k as [| k IH]; intros d n Hn Hd.
  - simpl in Hn. replace n with 0 by lia.
    rewrite positional_zero, Nat.sub_0_r. simpl. rewrite app_nil_r. reflexivity.
  - destruct d as [| d]; [lia |]. simpl.
    rewrite (IH d (n / radix)); [| | lia].
    + rewrite app_assoc. reflexivity.
    + split; [apply Z.div_pos; lia |].
      apply Z.div_lt_upper_bound; [lia |].
      rewrite Nat2Z.inj_succ, Z.pow_succ_r in Hn by lia. lia.
Qed.

(** What the loop of [toString] leaves: the [k] digits of [n], for the
    least [k >= 1] that holds [n]. *)
Lemma digitsFrom_positional (fuel : nat) (n : Z) (acc : list Z) :
  0 <= n < 2 ^ Z.of_nat fuel ->
  (1 <= fuel)%nat ->
  exists k,
    (1 <= k)%nat
    /\ JS.digitsFrom radix fuel n acc = Spec.positional radix k n ++ acc
    /\ n < radix ^ Z.of_nat k
    /\ (k = 1%nat \/ radix ^ (Z.of_nat k - 1) <= n).
Proof.
  revert n acc. induction fuel as [| fuel IH]; intros n acc Hn Hfuel; [lia |].
  simpl. destruct (n / radix =? 0) eqn:Hq.
  - apply Z.eqb_eq in Hq. exists 1%nat.
    assert (n < radix).
    { destruct (Z.lt_ge_cases n radix) as [| Hge]; [assumption |].
      assert (1 <= n / radix) by (apply Z.div_le_lower_bound; lia). lia. }
    split; [lia |]. split; [reflexivity |]. split; [| left; reflexivity].
    change (Z.of_nat 1) with 1. rewrite Z.pow_1_r. assumption.
  - apply Z.eqb_neq in Hq.
    assert (Hge : radix <= n).
    { destruct (Z.lt_ge_cases n radix) as [Hlt |]; [| assumption].
      rewrite Z.div_small in Hq by lia. congruence. }
    assert (Hq2 : 0 <= n / radix < 2 ^ Z.of_nat fuel).
    { split; [apply Z.div_pos; lia |].
      apply Z.div_lt_upper_bound; [lia |].
      rewrite Nat2Z.inj_succ, Z.pow_succ_r in Hn by lia.
      assert (0 < 2 ^ Z.of_nat fuel) by (apply Z.pow_pos_nonneg; lia). nia. }
    assert (Hf : (1 <= fuel)%nat).
    { destruct fuel; [simpl in Hq2; lia | lia]. }
    destruct (IH (n / radix) (n mod radix :: acc) Hq2 Hf)
      as (k & Hk & Heq & Hlt & Hlow).
    exists (S k). split; [lia |]. split; [| split].
    + rewrite Heq. simpl. rewrite <- app_assoc. reflexivity.
    + rewrite Nat2Z.inj_succ, Z.pow_succ_r by lia.
      pose proof (Z.div_mod n radix ltac:(lia)).
      pose proof (Z.mod_pos_bound n radix ltac:(lia)). nia.
    + right. replace (Z.of_nat (S k) - 1) with (Z.of_nat k) by lia.
      pose proof (Z.div_mod n radix ltac:(lia)).
      pose proof (Z.mod_pos_bound n radix ltac:(lia)).
      destruct Hlow as [-> | Hlow].
      * change (Z.of_nat 1) with 1. rewrite Z.pow_1_r. lia.
      * replace (Z.of_nat k) with (Z.succ (Z.of_nat k - 1)) by lia.
        rewrite Z.pow_succ_r by lia. nia.
Qed.

Lemma digitsOf_positional (n : Z) :
  0 <= n ->
  exists k,
    (1 <= k)%nat
    /\ JS.digitsOf radix n = Spec.positional radix k n
    /\ n < radix ^ Z.of_nat k
    /\ (k = 1%nat \/ radix ^ (Z.of_nat k - 1) <= n).
Proof.
  intros Hn. unfold JS.digitsOf.
  destruct (digitsFrom_positional (S (Z.to_nat (Z.log2 n))) n []) as (k & H).
  - split; [assumption |].
    rewrite Nat2Z.inj_succ, Z2Nat.id by apply Z.log2_nonneg.
    destruct (Z.eq_dec n 0) as [-> | Hne]; [reflexivity |].
    apply Z.log2_spec. lia.
  - lia.
  - exists k. rewrite app_nil_r in H. exact H.
Qed.

(** Padded to [d] digits, the digits of a number below [radix ^ d] are
    its [d] positional digits. *)
Lemma digitsOf_padded (d : nat) (n : Z) :
  0 <= n < radix ^ Z.of_nat d ->
  (1 <= d)%nat ->
  (List.length (JS.digitsOf radix n) <= d)%nat
  /\ repeat 0 (d - List.length (JS.digitsOf radix n)) ++ JS.digitsOf radix n
     = Spec.positional radix d n.
Proof.
  intros Hn Hd.
  destruct (digitsOf_positional n) as (k & Hk & Heq & Hlt & Hlow); [lia |].
  assert (Hkd : (k <= d)%nat).
  { destruct Hlow as [-> | Hlow]; [assumption |].
    destruct (Nat.le_gt_cases k d) as [| Hgt]; [assumption |].
    assert (radix ^ Z.of_nat d <= radix ^ (Z.of_nat k - 1))
      by (apply Z.pow_le_mono_r; lia).
    lia. }
  rewrite Heq, positional_length. split; [assumption |].
  symmetry. apply positional_pad; [lia | assumption].
Qed.

End Digits.

(** *** Strings of characters *)

Lemma string_of_list_ascii_app (a b : list ascii) :
  String.append (string_of_list_ascii a) (string_of_list_ascii b)
  = string_of_list_ascii (a ++ b).
Proof.
  induction a as [| c a IH]; simpl; [reflexivity | rewrite IH; reflexivity].
Qed.

Lemma string_of_list_ascii_length (l : list ascii) :
  String.length (string_of_list_ascii l) = List.length l.
Proof.
  induction l as [| c l IH]; simpl; [reflexivity | rewrite IH; reflexivity].
Qed.

Lemma digitChar_decimal (d : Z) :
  0 <= d < 10 -> JS.digitChar d = Spec.decimalDigit d.
Proof.
  intros Hd.
  assert (H : d = 0 \/ d = 1 \/ d = 2 \/ d = 3 \/ d = 4 \/ d = 5 \/ d = 6
              \/ d = 7 \/ d = 8 \/ d = 9) by lia.
  repeat (destruct H as [-> | H]; [reflexivity |]). subst d. reflexivity.
Qed.

(** A decimal digit character. *)
Lemma decimalDigit_is_digit (d : Z) :
  0 <= d < 10 -> In (Spec.decimalDigit d) (list_ascii_of_string "0123456789").
Proof.
  intros Hd.
  assert (H : d = 0 \/ d = 1 \/ d = 2 \/ d = 3 \/ d = 4 \/ d = 5 \/ d = 6
              \/ d = 7 \/ d = 8 \/ d = 9) by lia.
  repeat (destruct H as [-> | H]; [simpl; tauto |]). subst d. simpl; tauto.
Qed.

(** [code.toString().padStart(digits, '0')] is the code on [digits]
    decimal digits, and the padding truncates nothing. *)
Lemma padStart_decimal (d : nat) (n : Z) :
  0 <= n < 10 ^ Z.of_nat d ->
  (1 <= d)%nat ->
  JS.padStart (JS.toString (JS.Int n) 10) d "0"%char = Spec.decimal d n
  /\ (String.length (JS.toString (JS.Int n) 10) <= d)%nat.
Proof.
  intros Hn Hd.
  destruct (digitsOf_padded 10 ltac:(lia) d n Hn Hd) as [Hlen Hpad].
  assert (Hs : JS.toString (JS.Int n) 10
               = string_of_list_ascii (map JS.digitChar (JS.digitsOf 10 n))).
  { unfold JS.toString. destruct (Z.ltb_spec n 0) as [| _]; [lia |].
    rewrite Z.abs_eq by lia. reflexivity. }
  rewrite Hs. unfold JS.padStart.
  rewrite string_of_list_ascii_length, length_map. split; [| exact Hlen].
  rewrite string_of_list_ascii_app.
  change "0"%char with (JS.digitChar 0). rewrite <- map_repeat, <- map_app, Hpad.
  unfold Spec.decimal. f_equal.
  apply map_ext_in. intros x Hx. apply digitChar_decimal.
  pose proof (positional_range 10 ltac:(lia) d n) as Hr.
  rewrite Forall_forall in Hr. apply Hr. exact Hx.
Qed.

Lemma decimal_length (d : nat) (n : Z) : String.length (Spec.decimal d n) = d.
Proof.
  unfold Spec.decimal.
  rewrite string_of_list_ascii_length, length_map. apply positional_length.
Qed.

Lemma decimal_digits (d : nat) (n : Z) :
  Forall (fun c => In c (list_ascii_of_string "0123456789"))
         (list_ascii_of_string (Spec.decimal d n)).
Proof.
  unfold Spec.decimal. rewrite list_ascii_of_string_of_list_ascii.
  apply Forall_map.
  eapply Forall_impl; [| apply (positional_range 10 ltac:(lia))].
  intros x Hx. apply decimalDigit_is_digit. exact Hx.
Qed.

(** *** 32-bit integers *)

Lemma toInt32_small (x : Z) : - 2 ^ 31 <= x < 2 ^ 31 -> JS.toInt32 x = x.
Proof.
  intros Hx. unfold JS.toInt32. rewrite Z.mod_small; lia.
Qed.

Lemma land_shiftl_low (hi lo k : Z) :
  0 <= k -> 0 <= lo < 2 ^ k -> Z.land (Z.shiftl hi k) lo = 0.
Proof.
  intros Hk Hlo. apply Z.bits_inj'. intros n Hn.
  rewrite Z.land_spec, Z.bits_0.
  destruct (Z.lt_ge_cases n k) as [Hlt | Hge].
  - rewrite Z.shiftl_spec_low by assumption. reflexivity.
  - destruct (Z.eq_dec lo 0) as [-> | Hne].
    + rewrite Z.bits_0. apply andb_false_r.
    + rewrite (Z.bits_above_log2 lo n); [apply andb_false_r | lia |].
      apply Z.lt_le_trans with k; [| assumption].
      apply Z.log2_lt_pow2; lia.
Qed.

(** A disjunction of disjoint bits is a sum. *)
Lemma lor_disjoint (hi lo k : Z) :
  0 <= k -> 0 <= lo < 2 ^ k -> Z.lor (hi * 2 ^ k) lo = hi * 2 ^ k + lo.
Proof.
  intros Hk Hlo. rewrite <- Z.shiftl_mul_pow2 by assumption.
  rewrite <- Z.lxor_lor by (apply land_shiftl_low; assumption).
  symmetry. apply Z.add_nocarry_lxor. apply land_shiftl_low; assumption.
Qed.

Lemma and32_255 (x : Z) : 0 <= x < 2 ^ 31 -> JS.and32 x 255 = x mod 256.
Proof.
  intros Hx. unfold JS.and32. rewrite toInt32_small by lia.
  change (JS.toInt32 255) with (Z.ones 8). rewrite Z.land_ones by lia.
  reflexivity.
Qed.

Lemma and32_127 (x : Z) : 0 <= x < 2 ^ 31 -> JS.and32 x 127 = x mod 128.
Proof.
  intros Hx. unfold JS.and32. rewrite toInt32_small by lia.
  change (JS.toInt32 127) with (Z.ones 7). rewrite Z.land_ones by lia.
  reflexivity.
Qed.

Lemma and32_15 (x : Z) : 0 <= x < 2 ^ 31 -> JS.and32 x 15 = x mod 16.
Proof.
  intros Hx. unfold JS.and32. rewrite toInt32_small by lia.
  change (JS.toInt32 15) with (Z.ones 4). rewrite Z.land_ones by lia.
  reflexivity.
Qed.

Lemma shl32_small (v k : Z) :
  0 <= k < 32 -> 0 <= v -> v * 2 ^ k < 2 ^ 31 -> JS.shl32 v k = v * 2 ^ k.
Proof.
  intros Hk Hv Hb. unfold JS.shl32.
  assert (0 < 2 ^ k) by (apply Z.pow_pos_nonneg; lia).
  rewrite (toInt32_small v) by nia.
  rewrite (Z.mod_small k) by lia.
  rewrite Z.shiftl_mul_pow2 by lia. apply toInt32_small. nia.
Qed.

Lemma or32_disjoint (hi lo k : Z) :
  0 <= k -> 0 <= lo < 2 ^ k -> 0 <= hi -> hi * 2 ^ k + lo < 2 ^ 31 ->
  JS.or32 (hi * 2 ^ k) lo = hi * 2 ^ k + lo.
Proof.
  intros Hk Hlo Hhi Hb. unfold JS.or32.
  assert (0 < 2 ^ k) by (apply Z.pow_pos_nonneg; lia).
  rewrite !toInt32_small by nia. apply lor_disjoint; assumption.
Qed.

(** *** Dynamic truncation *)

Lemma wordArrayToBytes_bytes (wordArray : WordArray) :
  Forall isByte (wordArrayToBytes wordArray).
Proof.
  unfold wordArrayToBytes. apply Forall_map, Forall_forall. intros i _.
  unfold isByte, JS.and32.
  change (JS.toInt32 255) with (Z.ones 8). rewrite Z.land_ones by lia.
  apply Z.mod_pos_bound. lia.
Qed.

Lemma wordArrayToBytes_length (wordArray : WordArray) :
  List.length (wordArrayToBytes wordArray) = sigBytes wordArray.
Proof.
  unfold wordArrayToBytes. rewrite length_map, length_seq. reflexivity.
Qed.

Lemma at0_byte (bytes : list Z) (i : Z) :
  Forall isByte bytes -> isByte (JS.at0 bytes i).
Proof.
  intros Hb. unfold JS.at0. destruct (i <? 0); [unfold isByte; lia |].
  destruct (nth_in_or_default (Z.to_nat i) bytes 0) as [Hin | ->].
  - rewrite Forall_forall in Hb. apply Hb. exact Hin.
  - unfold isByte; lia.
Qed.

Lemma at0_nth (bytes : list Z) (i : Z) (k : nat) :
  0 <= i -> JS.at0 bytes (i + Z.of_nat k) = nth (Z.to_nat i + k) bytes 0.
Proof.
  intros Hi. unfold JS.at0.
  destruct (Z.ltb_spec (i + Z.of_nat k) 0) as [| _]; [lia |].
  f_equal. lia.
Qed.

Lemma at0_last (bytes : list Z) :
  JS.at0 bytes (Z.of_nat (List.length bytes) - 1) = last bytes 0.
Proof.
  unfold JS.at0. destruct bytes as [| b bytes]; [reflexivity |].
  destruct (Z.ltb_spec (Z.of_nat (List.length (b :: bytes)) - 1) 0) as [Hlt | _].
  - simpl List.length in Hlt. lia.
  - replace (Z.to_nat (Z.of_nat (List.length (b :: bytes)) - 1))
      with (List.length bytes) by (simpl List.length; lia).
    revert b. induction bytes as [| b' bytes IH]; intros b; [reflexivity |].
    change (nth (List.length (b' :: bytes)) (b :: b' :: bytes) 0)
      with (nth (List.length bytes) (b' :: bytes) 0).
    rewrite IH. reflexivity.
Qed.

(** The bitwise expression of [hotp] is the [binCode] of the
    specification, a number of 31 bits. *)
Lemma truncation (hmacBytes : list Z) :
  Forall isByte hmacBytes ->
  let offset :=
    JS.and32 (JS.at0 hmacBytes (Z.of_nat (List.length hmacBytes) - 1)) 15 in
  JS.or32
    (JS.or32
       (JS.or32
          (JS.shl32 (JS.and32 (JS.at0 hmacBytes offset) 127) 24)
          (JS.shl32 (JS.and32 (JS.at0 hmacBytes (offset + 1)) 255) 16))
       (JS.shl32 (JS.and32 (JS.at0 hmacBytes (offset + 2)) 255) 8))
    (JS.and32 (JS.at0 hmacBytes (offset + 3)) 255)
  = Spec.binCode hmacBytes
  /\ offset = Spec.offset hmacBytes
  /\ 0 <= Spec.offset hmacBytes < 16
  /\ 0 <= Spec.binCode hmacBytes < 2 ^ 31.
Proof.
  intros Hb offset.
  assert (Hoff : offset = Spec.offset hmacBytes).
  { unfold offset, Spec.offset. rewrite at0_last.
    assert (Hl : isByte (last hmacBytes 0)).
    { rewrite <- at0_last. apply at0_byte. exact Hb. }
    unfold isByte in Hl. apply and32_15. lia. }
  assert (Hrange : 0 <= Spec.offset hmacBytes < 16)
    by (unfold Spec.offset; apply Z.mod_pos_bound; lia).
  assert (H0 : JS.at0 hmacBytes offset
               = nth (Z.to_nat (Spec.offset hmacBytes) + 0) hmacBytes 0).
  { rewrite <- at0_nth by lia. rewrite Hoff. f_equal. simpl. lia. }
  assert (H1 : JS.at0 hmacBytes (offset + 1)
               = nth (Z.to_nat (Spec.offset hmacBytes) + 1) hmacBytes 0).
  { rewrite Hoff. apply (at0_nth hmacBytes _ 1). lia. }
  assert (H2 : JS.at0 hmacBytes (offset + 2)
               = nth (Z.to_nat (Spec.offset hmacBytes) + 2) hmacBytes 0).
  { rewrite Hoff. apply (at0_nth hmacBytes _ 2). lia. }
  assert (H3 : JS.at0 hmacBytes (offset + 3)
               = nth (Z.to_nat (Spec.offset hmacBytes) + 3) hmacBytes 0).
  { rewrite Hoff. apply (at0_nth hmacBytes _ 3). lia. }
  pose proof (at0_byte hmacBytes offset Hb) as B0.
  pose proof (at0_byte hmacBytes (offset + 1) Hb) as B1.
  pose proof (at0_byte hmacBytes (offset + 2) Hb) as B2.
  pose proof (at0_byte hmacBytes (offset + 3) Hb) as B3.
  unfold Spec.binCode. rewrite <- H0, <- H1, <- H2, <- H3.
  set (b0 := JS.at0 hmacBytes offset) in *.
  set (b1 := JS.at0 hmacBytes (offset + 1)) in *.
  set (b2 := JS.at0 hmacBytes (offset + 2)) in *.
  set (b3 := JS.at0 hmacBytes (offset + 3)) in *.
  unfold isByte in B0, B1, B2, B3.
  pose proof (Z.mod_pos_bound b0 128 ltac:(lia)) as M0.
  rewrite and32_127, !and32_255 by lia.
  rewrite !(Z.mod_small _ 256) by lia.
  rewrite (shl32_small (b0 mod 128) 24), (shl32_small b1 16),
    (shl32_small b2 8) by lia.
  assert (E1 : JS.or32 (b0 mod 128 * 2 ^ 24) (b1 * 2 ^ 16)
               = (b0 mod 128 * 2 ^ 8 + b1) * 2 ^ 16).
  { rewrite or32_disjoint by lia. lia. }
  rewrite E1.
  assert (E2 : JS.or32 ((b0 mod 128 * 2 ^ 8 + b1) * 2 ^ 16) (b2 * 2 ^ 8)
               = ((b0 mod 128 * 2 ^ 8 + b1) * 2 ^ 8 + b2) * 2 ^ 8).
  { rewrite or32_disjoint by lia. lia. }
  rewrite E2, or32_disjoint by lia.
  split; [lia |]. split; [exact Hoff |]. split; [exact Hrange | lia].
Qed.


(** *** The counter as a word array *)

Lemma positional_hex_pairs (k : nat) (n : Z) :
  Spec.positional 16 (2 * k) n = flat_map hexPair (Spec.positional 256 k n).
Proof.
  revert n. induction k as [| k IH]; intros n; [reflexivity |].
  replace (2 * S k)%nat with (S (S (2 * k))) by lia.
  cbn [Spec.positional]. rewrite flat_map_app, <- IH.
  rewrite Z.div_div by lia. change (16 * 16) with 256.
  rewrite <- app_assoc. f_equal. cbn [flat_map hexPair app].
  change 256 with (16 * 16).
  rewrite Z.rem_mul_r by lia.
  f_equal; [| f_equal].
  - pose proof (Z.mod_pos_bound n 16 ltac:(lia)).
    replace (n mod 16 + 16 * (n / 16 mod 16))
      with (n / 16 mod 16 * 16 + n mod 16) by lia.
    rewrite Z.div_add_l, (Z.div_small (n mod 16)) by lia. lia.
  - pose proof (Z.mod_pos_bound n 16 ltac:(lia)).
    replace (n mod 16 + 16 * (n / 16 mod 16))
      with (n mod 16 + n / 16 mod 16 * 16) by lia.
    rewrite Z.mod_add, Z.mod_mod by lia. reflexivity.
Qed.

Lemma counterBytes_positional (c : Z) :
  Spec.counterBytes c = Spec.positional 256 8 c.
Proof.
  unfold Spec.counterBytes. cbn [Spec.positional map app].
  rewrite !Z.div_div by lia.
  change (2 ^ (8 * 0)) with 1. rewrite Z.div_1_r. reflexivity.
Qed.

Lemma parseInt_hex_digit_pair (a b : Z) :
  0 <= a < 16 -> 0 <= b < 16 ->
  JS.parseInt [JS.digitChar a; JS.digitChar b] 16 = Some (16 * a + b).
Proof.
  intros Ha Hb.
  assert (HA : a = 0 \/ a = 1 \/ a = 2 \/ a = 3 \/ a = 4 \/ a = 5 \/ a = 6
               \/ a = 7 \/ a = 8 \/ a = 9 \/ a = 10 \/ a = 11 \/ a = 12
               \/ a = 13 \/ a = 14 \/ a = 15) by lia.
  assert (HB : b = 0 \/ b = 1 \/ b = 2 \/ b = 3 \/ b = 4 \/ b = 5 \/ b = 6
               \/ b = 7 \/ b = 8 \/ b = 9 \/ b = 10 \/ b = 11 \/ b = 12
               \/ b = 13 \/ b = 14 \/ b = 15) by lia.
  clear Ha Hb.
  repeat (destruct HA as [-> | HA]);
    repeat (destruct HB as [-> | HB]); subst; reflexivity.
Qed.

Lemma parseInt_hexPair (b : Z) :
  isByte b -> JS.parseInt (map JS.digitChar (hexPair b)) 16 = Some b.
Proof.
  intros Hb. unfold isByte in Hb. unfold hexPair. cbn [map].
  rewrite parseInt_hex_digit_pair.
  - f_equal. pose proof (Z.div_mod b 16 ltac:(lia)). lia.
  - split; [apply Z.div_pos; lia | apply Z.div_lt_upper_bound; lia].
  - apply Z.mod_pos_bound. lia.
Qed.

(** Reading the two digits of each byte is packing the bytes. *)
Lemma parseFrom_hexPairs (bytes : list Z) (i : nat) (ws : list Z) :
  Forall isByte bytes ->
  CryptoJS.parseFrom (2 * i) (map JS.digitChar (flat_map hexPair bytes)) ws
  = CryptoJS.createFrom i bytes ws.
Proof.
  intros Hb. revert i ws.
  induction Hb as [| b bytes Hb _ IH]; intros i ws; [reflexivity |].
  cbn [flat_map]. rewrite map_app.
  pose proof (parseInt_hexPair b Hb) as Hp.
  unfold hexPair in *. cbn [map app] in *.
  cbn [CryptoJS.parseFrom CryptoJS.createFrom].
  rewrite Hp. cbn [JS.orZero].
  replace (2 * i + 2)%nat with (2 * S i)%nat by lia.
  rewrite IH. f_equal.
  replace (2 * i / 8)%nat with (i / 4)%nat.
  2:{ change 8%nat with (2 * 4)%nat.
      rewrite Nat.Div0.div_mul_cancel_l by lia. reflexivity. }
  replace (Z.of_nat ((2 * i) mod 8) * 4) with (Z.of_nat (i mod 4) * 8).
  2:{ change 8%nat with (2 * 4)%nat.
      rewrite Nat.Div0.mul_mod_distr_l. lia. }
  reflexivity.
Qed.

(** [numberToWordArray] of a counter of 64 bits is the word array of its
    8 bytes, big-endian. *)
Lemma numberToWordArray_counterBytes (c : Z) :
  0 <= c < 2 ^ 64 ->
  numberToWordArray (JS.Int c) = CryptoJS.create (Spec.counterBytes c).
Proof.
  intros Hc. unfold numberToWordArray.
  assert (Hs : JS.toString (JS.Int c) 16
               = string_of_list_ascii (map JS.digitChar (JS.digitsOf 16 c))).
  { unfold JS.toString. destruct (Z.ltb_spec c 0) as [| _]; [lia |].
    rewrite Z.abs_eq by lia. reflexivity. }
  destruct (digitsOf_padded 16 ltac:(lia) 16 c) as [Hlen Hpad]; [| lia |].
  { change (16 ^ Z.of_nat 16) with (2 ^ 64). exact Hc. }
  assert (Hhex : JS.padStart (JS.toString (JS.Int c) 16) 16 "0"%char
                 = string_of_list_ascii
                     (map JS.digitChar
                        (flat_map hexPair (Spec.counterBytes c)))).
  { rewrite Hs. unfold JS.padStart.
    rewrite string_of_list_ascii_length, length_map, string_of_list_ascii_app.
    change "0"%char with (JS.digitChar 0).
    rewrite <- map_repeat, <- map_app, Hpad.
    rewrite counterBytes_positional, <- positional_hex_pairs. reflexivity. }
  rewrite Hhex. unfold CryptoJS.Hex_parse, CryptoJS.create.
  rewrite list_ascii_of_string_of_list_ascii, string_of_list_ascii_length.
  f_equal.
  apply (parseFrom_hexPairs _ 0).
  rewrite counterBytes_positional. unfold isByte.
  apply (positional_range 256). lia.
Qed.

(** *** The value of [hotp] *)

Section Derivation.

Context {E : Externals}.

Lemma hotp_value (this : OTP.t) (counter : JS.number) (key : list Z) :
  base32_decode (secret this) = Some key ->
  result (hotp (HOTPOptions.mk counter)) this
  = Return
      (JS.padStart
         (JS.toString
            (JS.Int
               (Spec.binCode (digestOf this counter key)
                mod 10 ^ Z.of_nat (digits this)))
            10)
         (digits this) "0"%char).
Proof.
  intros Hk.
  unfold result, hotp, decodeSecret, bind, get, ret, throw.
  rewrite Hk.
  cbv beta iota zeta delta [fst HOTPOptions.counter].
  fold (digestOf this counter key).
  pose proof (truncation (digestOf this counter key)
                (wordArrayToBytes_bytes _)) as T.
  cbv zeta in T. destruct T as (T & _ & _ & Hrange).
  rewrite T.
  assert (Hpow : 0 < 10 ^ Z.of_nat (digits this))
    by (apply Z.pow_pos_nonneg; lia).
  rewrite Z.rem_mod_nonneg by lia.
  reflexivity.
Qed.

Lemma hotp_decimal (this : OTP.t) (counter : JS.number) (key : list Z) :
  base32_decode (secret this) = Some key ->
  (1 <= digits this)%nat ->
  result (hotp (HOTPOptions.mk counter)) this
  = Return
      (Spec.decimal (digits this)
         (Spec.binCode (digestOf this counter key)
          mod 10 ^ Z.of_nat (digits this))).
Proof.
  intros Hk Hd. rewrite (hotp_value this counter key Hk). f_equal.
  apply padStart_decimal; [| assumption].
  apply Z.mod_pos_bound. apply Z.pow_pos_nonneg; lia.
Qed.

(** The digest of an instance is long enough for the truncation. *)
Lemma digest_length {S : ExternalsSpec E} (this : OTP.t) (counter : JS.number)
      (key : list Z) :
  instance this ->
  (20 <= List.length (digestOf this counter key))%nat.
Proof.
  intros Hi. apply instance_hash in Hi.
  unfold digestOf. rewrite wordArrayToBytes_length.
  unfold hashOf in Hi.
  destruct (String.eqb (algorithm this) "SHA1");
    [| destruct (String.eqb (algorithm this) "SHA256");
       [| destruct (String.eqb (algorithm this) "SHA512")]];
    inversion Hi as [Hh].
  - rewrite HmacSHA1_sigBytes. lia.
  - rewrite HmacSHA256_sigBytes. lia.
  - rewrite HmacSHA512_sigBytes. lia.
Qed.

(** C2. For an instance and a counter of 64 bits, [hotp] truncates the
    digest the selected HMAC gives for the 8 big-endian bytes of the
    counter under the decoded secret: the offset is the low nibble of the
    last byte, the four bytes from the offset exist, their big-endian
    reading with the top bit dropped is a number [binCode] of 31 bits,
    and the string returned is [binCode mod 10 ^ digits], padded; for
    [digits >= 1] the call is the derivation of the specification. *)
Theorem hotp_dynamic_truncation {S : ExternalsSpec E} (this : OTP.t) (c : Z) :
  instance this ->
  0 <= c < 2 ^ 64 ->
  (forall key,
     base32_decode (secret this) = Some key ->
     exists hmac,
       hashOf (algorithm this) = Some hmac
       /\ let digest :=
            wordArrayToBytes
              (hmac (CryptoJS.create (Spec.counterBytes c)) (CryptoJS.create key)) in
          let offset := last digest 0 mod 16 in
          let byte k := nth (Z.to_nat offset + k) digest 0 in
          let binCode :=
            (byte 0%nat mod 128) * 2 ^ 24 + byte 1%nat * 2 ^ 16
            + byte 2%nat * 2 ^ 8 + byte 3%nat in
          (Z.to_nat offset + 3 < List.length digest)%nat
          /\ Forall isByte digest
          /\ 0 <= binCode < 2 ^ 31
          /\ result (hotp (HOTPOptions.mk (JS.Int c))) this
             = Return
                 (JS.padStart
                    (JS.toString
                       (JS.Int (binCode mod 10 ^ Z.of_nat (digits this))) 10)
                    (digits this) "0"%char))
  /\ ((1 <= digits this)%nat ->
      result (hotp (HOTPOptions.mk (JS.Int c))) this
      = match Spec.code this c with
        | Some otp => Return otp
        | None => Throw (CodecError (secret this))
        end).
Proof.
  intros Hi Hc.
  pose proof (instance_hash this Hi) as Hh.
  assert (Hd : forall key,
             digestOf this (JS.Int c) key
             = wordArrayToBytes
                 (hash this (CryptoJS.create (Spec.counterBytes c))
                    (CryptoJS.create key))).
  { intros key. unfold digestOf.
    rewrite numberToWordArray_counterBytes by assumption. reflexivity. }
  split.
  - intros key Hk. exists (hash this). split; [exact Hh |].
    rewrite <- Hd.
    pose proof (truncation (digestOf this (JS.Int c) key)
                  (wordArrayToBytes_bytes _)) as T.
    cbv zeta in T. destruct T as (_ & _ & Hoff & Hbin).
    pose proof (digest_length this (JS.Int c) key Hi) as Hlen.
    cbv zeta. split; [| split; [| split]].
    + fold (Spec.offset (digestOf this (JS.Int c) key)). lia.
    + apply wordArrayToBytes_bytes.
    + exact Hbin.
    + apply hotp_value. exact Hk.
  - intros Hdig. unfold Spec.code. rewrite Hh.
    destruct (base32_decode (secret this)) as [key |] eqn:Hk.
    + rewrite <- Hd. apply hotp_decimal; assumption.
    + apply hotp_rejects. exact Hk.
Qed.

(** C5. With [digits >= 1], a string [hotp] returns has exactly [digits]
    characters, all decimal digits: it is a number below [10 ^ digits]
    written on [digits] places with zeros to the left, the padding
    cutting nothing; the same holds of [totp], which returns what [hotp]
    does; and [hotp] returns whenever the codec accepts the secret. *)
Theorem hotp_length (this : OTP.t) (options : HOTPOptions.t) :
  (1 <= digits this)%nat ->
  (forall otp,
     result (hotp options) this = Return otp ->
     String.length otp = digits this
     /\ Forall (fun ch => In ch (list_ascii_of_string "0123456789"))
               (list_ascii_of_string otp)
     /\ exists code,
          0 <= code < 10 ^ Z.of_nat (digits this)
          /\ otp = JS.padStart (JS.toString (JS.Int code) 10) (digits this) "0"%char
          /\ (String.length (JS.toString (JS.Int code) 10) <= digits this)%nat
          /\ otp = Spec.decimal (digits this) code)
  /\ (forall now totpOptions otp,
        result (totp now totpOptions) this = Return otp ->
        String.length otp = digits this
        /\ Forall (fun ch => In ch (list_ascii_of_string "0123456789"))
                  (list_ascii_of_string otp))
  /\ (forall key,
        base32_decode (secret this) = Some key ->
        exists otp, result (hotp options) this = Return otp).
Proof.
  intros Hd.
  assert (Hshape : forall counter otp,
             result (hotp (HOTPOptions.mk counter)) this = Return otp ->
             exists code,
               0 <= code < 10 ^ Z.of_nat (digits this)
               /\ otp = JS.padStart (JS.toString (JS.Int code) 10)
                          (digits this) "0"%char
               /\ (String.length (JS.toString (JS.Int code) 10)
                   <= digits this)%nat
               /\ otp = Spec.decimal (digits this) code).
  { intros counter otp Hotp.
    destruct (base32_decode (secret this)) as [key |] eqn:Hk.
    - rewrite (hotp_value this counter key Hk) in Hotp.
      inversion Hotp as [Heq]. clear Hotp.
      set (code := Spec.binCode (digestOf this counter key)
                   mod 10 ^ Z.of_nat (digits this)) in *.
      assert (Hcode : 0 <= code < 10 ^ Z.of_nat (digits this)).
      { apply Z.mod_pos_bound. apply Z.pow_pos_nonneg; lia. }
      destruct (padStart_decimal (digits this) code Hcode Hd) as [Hdec Hlen].
      exists code. repeat split; try assumption; try lia.
    - rewrite (hotp_rejects _ _ Hk) in Hotp. discriminate. }
  split; [| split].
  - intros otp Hotp. destruct options as [counter].
    destruct (Hshape counter otp Hotp) as (code & Hcode & Hpad & Hlen & Hdec).
    split; [| split].
    + rewrite Hdec. apply decimal_length.
    + rewrite Hdec. apply decimal_digits.
    + exists code. repeat split; try assumption; lia.
  - intros now totpOptions otp Hotp. rewrite totp_result in Hotp.
    destruct (Hshape _ otp Hotp) as (code & _ & _ & _ & Hdec).
    split; rewrite Hdec; [apply decimal_length | apply decimal_digits].
  - intros key Hk. eapply hotp_returns. exact Hk.
Qed.

End Derivation.

(** *** The test vectors, and the properties at work on them *)

Section OnTheVectors.

#[local] Existing Instance Standard.externals.

Import Vectors.

Lemma otp_is_this6 : otp = Return this6.
Proof. reflexivity. Qed.

Lemma otp8_is_this8 : otp8 = Return this8.
Proof. reflexivity. Qed.

(** C1. With the secret that is the base32 text of the ASCII bytes
    "12345678901234567890" and SHA1: [hotp] on 6 digits gives the ten
    codes of RFC 4226 for the counters 0 to 9, and [totp] on 8 digits
    with the default period of 30 gives the six codes of RFC 6238 for the
    times given in seconds and passed in milliseconds. *)
Theorem rfc_vectors :
  Standard.decode secret
  = Some (Standard.bytes_of_string "12345678901234567890")
  /\ Standard.encode (Standard.bytes_of_string "12345678901234567890") = secret
  /\ map (hotpAt otp) [0; 1; 2; 3; 4; 5; 6; 7; 8; 9]
     = map Return
         ["755224"; "287082"; "359152"; "969429"; "338314";
          "254676"; "287922"; "162583"; "399871"; "520489"]
  /\ on otp8 (get period) = Return 30
  /\ map (totpAt otp8)
       [59; 1111111109; 1111111111; 1234567890; 2000000000; 20000000000]
     = map Return
         ["94287082"; "07081804"; "14050471"; "89005924"; "69279037";
          "65353130"].
Proof.
  rewrite otp_is_this6, otp8_is_this8.
  split; [| split; [| split; [| split]]]; vm_compute; reflexivity.
Qed.

(** The digests of the standard keyed hashes have the lengths the
    specification states. *)

Lemma be_bytes_length (n : nat) (x : Z) :
  List.length (Standard.be_bytes n x) = n.
Proof.
  revert x. induction n as [| n IH]; intros x; simpl.
  - reflexivity.
  - rewrite length_app, IH. simpl. lia.
Qed.

Lemma sha1_length (msg : list Z) : List.length (Standard.sha1 msg) = 20%nat.
Proof.
  unfold Standard.sha1.
  destruct (fold_left Standard.sha1_block _ _) as [[[[h0 h1] h2] h3] h4].
  rewrite !length_app, !be_bytes_length. reflexivity.
Qed.

Lemma sha2_length (P : Standard.sha2_params) (msg : list Z) :
  List.length (Standard.sha2 P msg) = (8 * Standard.wordBytes P)%nat.
Proof.
  unfold Standard.sha2.
  destruct (fold_left (Standard.sha2_block P) _ _)
    as [[[[[[[h0 h1] h2] h3] h4] h5] h6] h7].
  rewrite !length_app, !be_bytes_length. lia.
Qed.

Lemma hmac_length (H : list Z -> list Z) (B n : nat) (key text : list Z) :
  (forall msg, List.length (H msg) = n) ->
  List.length (Standard.hmac H B key text) = n.
Proof.
  intros HH. unfold Standard.hmac. apply HH.
Qed.

Lemma standard_spec : ExternalsSpec Standard.externals.
Proof.
  split; intros m k; cbn [HmacSHA1 HmacSHA256 HmacSHA512 Standard.externals];
    unfold Standard.HmacOf, CryptoJS.create; cbn [sigBytes].
  - apply hmac_length, sha1_length.
  - apply hmac_length. intros msg. apply (sha2_length Standard.sha256_params).
  - apply hmac_length. intros msg. apply (sha2_length Standard.sha512_params).
Qed.

Lemma this6_instance : instance this6.
Proof.
  exists noRandom, (OTPGeneratorOptions.mk None None None (Some secret)), this6.
  split; [reflexivity | apply calls_none].
Defined.

Lemma hotp_dynamic_truncation_witness :
  instance this6
  /\ 0 <= 1 < 2 ^ 64
  /\ (1 <= digits this6)%nat
  /\ Spec.code this6 1 = Some "287082"
  /\ result (hotp (HOTPOptions.mk (JS.Int 1))) this6 = Return "287082".
Proof.
  assert (Hc : 0 <= 1 < 2 ^ 64) by (split; [discriminate | reflexivity]).
  assert (Hd : (1 <= digits this6)%nat) by (cbn [digits this6]; lia).
  assert (Hs : Spec.code this6 1 = Some "287082") by (vm_compute; reflexivity).
  split; [exact this6_instance |]. split; [exact Hc |]. split; [exact Hd |].
  split; [exact Hs |].
  rewrite (proj2 (hotp_dynamic_truncation (S := standard_spec) this6 1
                    this6_instance Hc) Hd).
  rewrite Hs. reflexivity.
Defined.

Lemma hotp_length_witness :
  (1 <= digits this6)%nat
  /\ result (hotp (HOTPOptions.mk (JS.Int 0))) this6 = Return "755224"
  /\ String.length "755224" = digits this6.
Proof.
  assert (Hd : (1 <= digits this6)%nat) by (cbn [digits this6]; lia).
  assert (H0 : result (hotp (HOTPOptions.mk (JS.Int 0))) this6 = Return "755224")
    by (vm_compute; reflexivity).
  split; [exact Hd |]. split; [exact H0 |].
  apply (proj1 (proj1 (hotp_length this6 (HOTPOptions.mk (JS.Int 0)) Hd)
                  "755224" H0)).
Defined.



Lemma hotpVerify_exact_witness :
  result (hotp (HOTPOptions.mk (JS.Int 0))) this6 = Return "755224"
  /\ result (hotp (HOTPOptions.mk (JS.add (JS.Int 0) 1))) this6 = Return "287082"
  /\ result (hotpVerify (HOTPVerify.mk (JS.Int 0) "755224")) this6 = Return true
  /\ result (hotpVerify (HOTPVerify.mk (JS.Int 0) "287082")) this6 = Return false.
Proof.
  assert (H0 : result (hotp (HOTPOptions.mk (JS.Int 0))) this6 = Return "755224")
    by (vm_compute; reflexivity).
  assert (H1 : result (hotp (HOTPOptions.mk (JS.add (JS.Int 0) 1))) this6
               = Return "287082")
    by (vm_compute; reflexivity).
  split; [exact H0 |]. split; [exact H1 |]. split.
  - apply (proj1 (hotpVerify_exact this6 (JS.Int 0) "755224")). exact H0.
  - apply (proj1 (proj2 (proj2 (proj2
             (hotpVerify_exact this6 (JS.Int 0) "287082")))) "755224" "287082"
             H0 H1).
    discriminate.
Defined.

Lemma hotp_deterministic_witness :
  result (hotp (HOTPOptions.mk (JS.Int 7))) this6
  = result (hotp (HOTPOptions.mk (JS.Int 7)))
      (after (totp 0 (TOTPOptions.mk (Some 60) None))
         (mk "SHA1" 6 secret 45 HmacSHA1)).
Proof.
  apply (hotp_deterministic noRandom noRandom
           (OTPGeneratorOptions.mk None None None (Some secret))
           (OTPGeneratorOptions.mk (Some "SHA1") (Some 6%nat) (Some 45)
              (Some secret))
           this6 (mk "SHA1" 6 secret 45 HmacSHA1) this6
           (after (totp 0 (TOTPOptions.mk (Some 60) None))
              (mk "SHA1" 6 secret 45 HmacSHA1))
           (HOTPOptions.mk (JS.Int 7))
           eq_refl eq_refl eq_refl eq_refl eq_refl
           (calls_none this6)
           (calls_totp _ 0 (TOTPOptions.mk (Some 60) None) _ (calls_none _))).
Defined.




(** C6 fails: with a negative override, and with a period of 0 given to
    the constructor, [totp] returns a code, computed from the counters
    [-2] and [Infinity]. *)
Lemma totp_accepts_bad_period :
  result (totp 0 (TOTPOptions.mk (Some (-30)) (Some 59000))) this6
  = Return "138629"
  /\ JS.floor_div_div 59000 1000 (-30) = JS.Int (-2)
  /\ on (new noRandom (OTPGeneratorOptions.mk None None (Some 0) (Some secret)))
        (totp 0 (TOTPOptions.mk None (Some 59000)))
     = Return "652798"
  /\ JS.floor_div_div 59000 1000 0 = JS.Infinity
  /\ (forall e,
        result (totp 0 (TOTPOptions.mk (Some (-30)) (Some 59000))) this6
        <> Throw e).
Proof.
  assert (H : result (totp 0 (TOTPOptions.mk (Some (-30)) (Some 59000))) this6
              = Return "138629") by (vm_compute; reflexivity).
  split; [exact H |]. split; [vm_compute; reflexivity |]. split; [| split].
  - change (new noRandom
              (OTPGeneratorOptions.mk None None (Some 0) (Some secret)))
      with (Return (mk "SHA1" 6 secret 0 HmacSHA1)).
    vm_compute; reflexivity.
  - reflexivity.
  - intros e. rewrite H. discriminate.
Qed.

Lemma totp_period_unchecked_witness :
  base32_decode (OTP.secret this6)
  = Some (Standard.bytes_of_string "12345678901234567890")
  /\ exists code,
       result (totp 0 (TOTPOptions.mk (Some (-30)) (Some 59000))) this6
       = Return code.
Proof.
  assert (Hk : base32_decode (OTP.secret this6)
               = Some (Standard.bytes_of_string "12345678901234567890"))
    by (vm_compute; reflexivity).
  split; [exact Hk |].
  apply (proj1 (proj2
           (totp_period_unchecked this6 0
              (TOTPOptions.mk (Some (-30)) (Some 59000))))
           _ Hk).
Defined.

End OnTheVectors.

(** *** Bytes in and out of a word array *)

Lemma toInt32_mod (x : Z) : JS.toInt32 x mod 2 ^ 32 = x mod 2 ^ 32.
Proof.
  unfold JS.toInt32.
  rewrite Zminus_mod, Z.mod_mod, <- Zminus_mod by lia.
  f_equal. lia.
Qed.

Lemma testbit_toInt32 (x m : Z) :
  0 <= m < 32 -> Z.testbit (JS.toInt32 x) m = Z.testbit x m.
Proof.
  intros Hm.
  rewrite <- (Z.mod_pow2_bits_low (JS.toInt32 x) 32 m) by lia.
  rewrite toInt32_mod. apply Z.mod_pow2_bits_low. lia.
Qed.

Lemma testbit_255 (n : Z) : 0 <= n -> Z.testbit 255 n = (n <? 8).
Proof.
  intros Hn. change 255 with (Z.ones 8).
  destruct (Z.ltb_spec n 8).
  - apply Z.ones_spec_low. lia.
  - apply Z.ones_spec_high. lia.
Qed.

Lemma testbit_byte_high (b n : Z) : isByte b -> 8 <= n -> Z.testbit b n = false.
Proof.
  intros Hb Hn. unfold isByte in Hb.
  rewrite <- (Z.mod_small b (2 ^ 8)) by lia.
  apply Z.mod_pow2_bits_high. lia.
Qed.

(** The bits of [(x >>> s) & 0xff]. *)
Lemma testbit_extract (x s n : Z) :
  0 <= s <= 24 -> 0 <= n ->
  Z.testbit (JS.and32 (JS.ushr32 x s) 255) n
  = (n <? 8) && Z.testbit x (n + s).
Proof.
  intros Hs Hn. unfold JS.and32. change (JS.toInt32 255) with 255.
  rewrite Z.land_spec, testbit_255, andb_comm by assumption.
  destruct (Z.ltb_spec n 8) as [Hlt | Hge]; [| reflexivity].
  cbn [andb]. rewrite testbit_toInt32 by lia.
  unfold JS.ushr32, JS.toUint32. rewrite (Z.mod_small s 32) by lia.
  rewrite Z.shiftr_spec by assumption.
  apply Z.mod_pow2_bits_low. lia.
Qed.

Lemma testbit_or32 (a b m : Z) :
  0 <= m < 32 ->
  Z.testbit (JS.or32 a b) m = Z.testbit a m || Z.testbit b m.
Proof.
  intros Hm. unfold JS.or32.
  rewrite Z.lor_spec, !testbit_toInt32 by assumption. reflexivity.
Qed.

Lemma testbit_shl32 (a k m : Z) :
  0 <= k < 32 -> 0 <= m < 32 ->
  Z.testbit (JS.shl32 a k) m = (k <=? m) && Z.testbit a (m - k).
Proof.
  intros Hk Hm. unfold JS.shl32.
  rewrite testbit_toInt32, (Z.mod_small k 32), Z.shiftl_spec by lia.
  destruct (Z.leb_spec k m) as [Hle | Hgt].
  - cbn [andb]. apply testbit_toInt32. lia.
  - cbn [andb]. apply Z.testbit_neg_r. lia.
Qed.

Lemma extract_or32 (a b s : Z) :
  0 <= s <= 24 ->
  JS.and32 (JS.ushr32 (JS.or32 a b) s) 255
  = Z.lor (JS.and32 (JS.ushr32 a s) 255) (JS.and32 (JS.ushr32 b s) 255).
Proof.
  intros Hs. apply Z.bits_inj'. intros n Hn.
  rewrite Z.lor_spec, !testbit_extract by assumption.
  destruct (Z.ltb_spec n 8) as [Hlt | Hge]; [| reflexivity].
  cbn [andb]. apply testbit_or32. lia.
Qed.

(** A byte shifted to its place in a word is read back at that place,
    and reads as 0 at the three others. *)
Lemma extract_shl32 (b : Z) (m m' : nat) :
  isByte b -> (m < 4)%nat -> (m' < 4)%nat ->
  JS.and32
    (JS.ushr32 (JS.shl32 b (24 - Z.of_nat m' * 8)) (24 - Z.of_nat m * 8)) 255
  = if (m =? m')%nat then b else 0.
Proof.
  intros Hb Hm Hm'. apply Z.bits_inj'. intros n Hn.
  rewrite testbit_extract by lia.
  destruct (Z.ltb_spec n 8) as [Hlt | Hge].
  - cbn [andb]. rewrite testbit_shl32 by lia.
    destruct (Nat.eqb_spec m m') as [-> | Hne].
    + destruct (Z.leb_spec (24 - Z.of_nat m' * 8) (n + (24 - Z.of_nat m' * 8)));
        [| lia].
      cbn [andb]. f_equal. lia.
    + rewrite Z.bits_0.
      destruct (Z.leb_spec (24 - Z.of_nat m' * 8) (n + (24 - Z.of_nat m * 8)));
        [| reflexivity].
      cbn [andb]. apply testbit_byte_high; [assumption | lia].
  - cbn [andb]. destruct (m =? m')%nat.
    + symmetry. apply testbit_byte_high; [assumption | lia].
    + symmetry. apply Z.bits_0.
Qed.

Lemma at0_of_nat (ws : list Z) (k : nat) : JS.at0 ws (Z.of_nat k) = nth k ws 0.
Proof.
  unfold JS.at0. destruct (Z.ltb_spec (Z.of_nat k) 0) as [| _]; [lia |].
  rewrite Nat2Z.id. reflexivity.
Qed.

Lemma nth_orAt (k k' : nat) (v : Z) (ws : list Z) :
  nth k' (JS.orAt k v ws) 0
  = if (k' =? k)%nat then JS.or32 (nth k ws 0) v else nth k' ws 0.
Proof.
  revert k' ws. induction k as [| k IH]; intros k' ws.
  - destruct ws as [| w ws]; destruct k' as [| k']; cbn [JS.orAt nth Nat.eqb];
      try reflexivity.
    destruct k'; reflexivity.
  - destruct ws as [| w ws]; destruct k' as [| k']; cbn [JS.orAt nth Nat.eqb];
      try reflexivity.
    + rewrite IH. destruct (k' =? k)%nat; [| destruct k']; try reflexivity.
      destruct k; reflexivity.
    + apply IH.
Qed.

Lemma byteOfWords_nil (j : nat) : byteOfWords [] j = 0.
Proof.
  unfold byteOfWords. rewrite at0_of_nat.
  replace (nth (j / 4) [] 0) with 0 by (destruct (j / 4)%nat; reflexivity).
  unfold JS.ushr32. change (JS.toUint32 0) with 0. rewrite Z.shiftr_0_l.
  reflexivity.
Qed.

(** One step of the packing loop writes byte [i] and no other. *)
Lemma byteOfWords_orAt (b : Z) (i j : nat) (ws : list Z) :
  isByte b ->
  byteOfWords
    (JS.orAt (i / 4) (JS.shl32 b (24 - Z.of_nat (i mod 4) * 8)) ws) j
  = if (j =? i)%nat then Z.lor (byteOfWords ws i) b else byteOfWords ws j.
Proof.
  intros Hb. unfold byteOfWords. rewrite !at0_of_nat, nth_orAt.
  pose proof (Nat.mod_upper_bound i 4 ltac:(lia)) as Hi.
  pose proof (Nat.mod_upper_bound j 4 ltac:(lia)) as Hj.
  destruct (Nat.eqb_spec (j / 4) (i / 4)) as [Hq | Hq].
  - rewrite extract_or32 by lia.
    rewrite (extract_shl32 b (j mod 4) (i mod 4)) by assumption.
    destruct (Nat.eqb_spec (j mod 4) (i mod 4)) as [Hr | Hr].
    + assert (j = i).
      { rewrite (Nat.div_mod_eq j 4), (Nat.div_mod_eq i 4). congruence. }
      subst j. rewrite Nat.eqb_refl. reflexivity.
    + destruct (Nat.eqb_spec j i) as [-> | _]; [congruence |].
      rewrite Hq. apply Z.lor_0_r.
  - destruct (Nat.eqb_spec j i) as [-> | _]; [congruence | reflexivity].
Qed.

Lemma byteOfWords_createFrom (bytes : list Z) (i : nat) (ws : list Z) :
  Forall isByte bytes ->
  (forall j, (i <= j)%nat -> byteOfWords ws j = 0) ->
  forall j,
    byteOfWords (CryptoJS.createFrom i bytes ws) j
    = if (j <? i)%nat then byteOfWords ws j else nth (j - i) bytes 0.
Proof.
  intros Hb. revert i ws.
  induction Hb as [| b bytes Hb _ IH]; intros i ws Hz j.
  - cbn [CryptoJS.createFrom].
    destruct (Nat.ltb_spec j i) as [| Hge]; [reflexivity |].
    rewrite Hz by assumption. destruct (j - i)%nat; reflexivity.
  - cbn [CryptoJS.createFrom]. rewrite IH.
    + rewrite byteOfWords_orAt by assumption.
      destruct (Nat.ltb_spec j (S i)) as [Hlt | Hge].
      * destruct (Nat.eqb_spec j i) as [-> | Hne].
        -- rewrite Hz by lia. rewrite Nat.ltb_irrefl, Nat.sub_diag.
           reflexivity.
        -- destruct (Nat.ltb_spec j i) as [| ]; [reflexivity | lia].
      * destruct (Nat.ltb_spec j i) as [| _]; [lia |].
        replace (j - i)%nat with (S (j - S i)) by lia. reflexivity.
    + intros j' Hj'. rewrite byteOfWords_orAt by assumption.
      destruct (Nat.eqb_spec j' i) as [| _]; [lia |]. apply Hz. lia.
Qed.

Lemma bytes_of_create (bytes : list Z) :
  Forall isByte bytes -> wordArrayToBytes (CryptoJS.create bytes) = bytes.
Proof.
  intros Hb. unfold wordArrayToBytes, CryptoJS.create. cbn [words sigBytes].
  apply (nth_ext _ _ 0 0).
  - rewrite length_map, length_seq. reflexivity.
  - rewrite length_map, length_seq. intros n Hn.
    rewrite (nth_indep _ 0
               (JS.and32
                  (JS.ushr32
                     (JS.at0 (CryptoJS.createFrom 0 bytes [])
                        (Z.of_nat (0 / 4)))
                     (24 - Z.of_nat (0 mod 4) * 8)) 255))
      by (rewrite length_map, length_seq; exact Hn).
    rewrite (map_nth
               (fun i : nat =>
                  JS.and32
                    (JS.ushr32
                       (JS.at0 (CryptoJS.createFrom 0 bytes [])
                          (Z.of_nat (i / 4)))
                       (24 - Z.of_nat (i mod 4) * 8)) 255)).
    rewrite seq_nth by exact Hn. cbn [Nat.add].
    fold (byteOfWords (CryptoJS.createFrom 0 bytes []) n).
    rewrite byteOfWords_createFrom.
    + cbn [Nat.ltb Nat.leb]. rewrite Nat.sub_0_r. reflexivity.
    + exact Hb.
    + intros j _. apply byteOfWords_nil.
Qed.

(** X4. Packing bytes into a word array and reading them back with
    [wordArrayToBytes] gives the bytes again, in number and in value. *)
Theorem wordArrayToBytes_create (bytes : list Z) :
  Forall isByte bytes ->
  wordArrayToBytes (CryptoJS.create bytes) = bytes
  /\ sigBytes (CryptoJS.create bytes) = List.length bytes.
Proof.
  intros Hb. split; [apply bytes_of_create; exact Hb | reflexivity].
Qed.

Lemma nth_wordArrayToBytes (w : WordArray) (i : nat) :
  (i < sigBytes w)%nat ->
  nth i (wordArrayToBytes w) 0 = byteOfWords (words w) i.
Proof.
  intros Hi. unfold wordArrayToBytes.
  rewrite (nth_indep _ 0 (byteOfWords (words w) 0))
    by (rewrite length_map, length_seq; exact Hi).
  unfold byteOfWords at 1.
  rewrite (map_nth
             (fun i : nat =>
                JS.and32
                  (JS.ushr32 (JS.at0 (words w) (Z.of_nat (i / 4)))
                     (24 - Z.of_nat (i mod 4) * 8)) 255)).
  rewrite seq_nth by exact Hi. reflexivity.
Qed.

(** X5. [wordArrayToBytes] returns exactly [sigBytes] values, each a byte;
    a significant byte beyond the words the array holds reads as 0; and
    the sign of a word does not matter, a word and its unsigned 32-bit
    value giving the same bytes. *)
Theorem wordArrayToBytes_shape (w : WordArray) :
  List.length (wordArrayToBytes w) = sigBytes w
  /\ Forall isByte (wordArrayToBytes w)
  /\ (forall i,
        (4 * List.length (words w) <= i)%nat ->
        nth i (wordArrayToBytes w) 0 = 0)
  /\ wordArrayToBytes (mkWordArray (map JS.toUint32 (words w)) (sigBytes w))
     = wordArrayToBytes w.
Proof.
  split; [apply wordArrayToBytes_length |].
  split; [apply wordArrayToBytes_bytes |]. split.
  - intros i Hi. destruct (Nat.lt_ge_cases i (sigBytes w)) as [Hlt | Hge].
    + rewrite nth_wordArrayToBytes by exact Hlt.
      unfold byteOfWords. rewrite at0_of_nat, nth_overflow.
      * unfold JS.ushr32. change (JS.toUint32 0) with 0.
        rewrite Z.shiftr_0_l. reflexivity.
      * apply Nat.div_le_lower_bound; lia.
    + apply nth_overflow. rewrite wordArrayToBytes_length. exact Hge.
  - unfold wordArrayToBytes. cbn [words sigBytes].
    apply map_ext. intros i. rewrite !at0_of_nat.
    change 0 with (JS.toUint32 0) at 1. rewrite map_nth.
    unfold JS.ushr32, JS.toUint32. rewrite Z.mod_mod by lia. reflexivity.
Qed.

Lemma be_value_positional (k : nat) (n : Z) :
  0 <= n ->
  Standard.be_value (Spec.positional 256 k n) = n mod 256 ^ Z.of_nat k.
Proof.
  unfold Standard.be_value. revert n. induction k as [| k IH]; intros n Hn.
  - cbn [Spec.positional fold_left]. change (Z.of_nat 0) with 0.
    rewrite Z.pow_0_r, Z.mod_1_r. reflexivity.
  - cbn [Spec.positional]. rewrite fold_left_app. cbn [fold_left].
    rewrite IH by (apply Z.div_pos; lia).
    rewrite Nat2Z.inj_succ, Z.pow_succ_r by lia.
    rewrite Z.rem_mul_r by (try apply Z.pow_pos_nonneg; lia). lia.
Qed.

(** X6. For a counter of 64 bits the message handed to the keyed hash has
    the 8 bytes of the counter, most significant first: read as a number
    they give the counter back, so that two such counters with the same
    word array are equal. *)
Theorem counter_message (c : Z) :
  0 <= c < 2 ^ 64 ->
  wordArrayToBytes (numberToWordArray (JS.Int c)) = Spec.counterBytes c
  /\ Standard.be_value (wordArrayToBytes (numberToWordArray (JS.Int c))) = c
  /\ (forall c',
        0 <= c' < 2 ^ 64 ->
        numberToWordArray (JS.Int c) = numberToWordArray (JS.Int c') ->
        c = c').
Proof.
  assert (Hbytes : forall x, 0 <= x < 2 ^ 64 ->
            wordArrayToBytes (numberToWordArray (JS.Int x)) = Spec.counterBytes x).
  { intros x Hx. rewrite numberToWordArray_counterBytes by exact Hx.
    apply bytes_of_create. rewrite counterBytes_positional.
    unfold isByte. apply (positional_range 256). lia. }
  assert (Hvalue : forall x, 0 <= x < 2 ^ 64 ->
            Standard.be_value (wordArrayToBytes (numberToWordArray (JS.Int x)))
            = x).
  { intros x Hx. rewrite Hbytes, counterBytes_positional by exact Hx.
    rewrite be_value_positional by lia.
    change (256 ^ Z.of_nat 8) with (2 ^ 64). apply Z.mod_small. exact Hx. }
  intros Hc. split; [apply Hbytes; exact Hc |].
  split; [apply Hvalue; exact Hc |].
  intros c' Hc' Heq.
  rewrite <- (Hvalue c Hc), <- (Hvalue c' Hc'), Heq. reflexivity.
Qed.

(** *** The engine beyond the claims *)

Section EngineExtras.

Context {E : Externals}.

Lemma hashOf_none (a : string) :
  hashOf a = None <-> a <> "SHA1" /\ a <> "SHA256" /\ a <> "SHA512".
Proof.
  unfold hashOf.
  destruct (String.eqb_spec a "SHA1") as [-> | H1].
  - split; [discriminate | intros (H & _); congruence].
  - destruct (String.eqb_spec a "SHA256") as [-> | H2].
    + split; [discriminate | intros (_ & H & _); congruence].
    + destruct (String.eqb_spec a "SHA512") as [-> | H3].
      * split; [discriminate | intros (_ & _ & H); congruence].
      * split; [intros _; repeat split; assumption | reflexivity].
Qed.

(** X1. The constructor fails exactly for an algorithm name other than
    SHA1, SHA256 and SHA512, with an [InvalidAlgorithmError] that carries
    the name; otherwise it returns the instance with the given fields, the
    defaults SHA1, 6 digits and period 30 for the absent ones, and the
    keyed hash of the algorithm; with a secret given the random bytes are
    not used; and [OTP.generate] ends as the constructor does. *)
Theorem new_outcome (randomBytes : WordArray) (options : OTPGeneratorOptions.t) :
  let a := match OTPGeneratorOptions.algorithm options with
           | Some a => a | None => "SHA1" end in
  let d := match OTPGeneratorOptions.digits options with
           | Some d => d | None => 6%nat end in
  let p := match OTPGeneratorOptions.period options with
           | Some p => p | None => 30 end in
  let s := match OTPGeneratorOptions.secret options with
           | Some s => s
           | None => base32_encode (wordArrayToBytes randomBytes) end in
  ((a <> "SHA1" /\ a <> "SHA256" /\ a <> "SHA512") ->
   new randomBytes options = Throw (InvalidAlgorithmError a))
  /\ (forall h, hashOf a = Some h ->
        new randomBytes options = Return (mk a d s p h))
  /\ ((exists this, new randomBytes options = Return this)
      <-> a = "SHA1" \/ a = "SHA256" \/ a = "SHA512")
  /\ (forall otherBytes,
        OTPGeneratorOptions.secret options <> None ->
        new otherBytes options = new randomBytes options)
  /\ generate randomBytes options = new randomBytes options.
Proof.
  intros a d p s.
  assert (Hnew : new randomBytes options
                 = match hashOf a with
                   | Some h => Return (mk a d s p h)
                   | None => Throw (InvalidAlgorithmError a)
                   end).
  { unfold new, setHash, bind, get, set_hash, throw, hashOf.
    cbn [algorithm digits secret period hash].
    fold a d p. unfold generateSecret. fold (wordArrayToBytes randomBytes).
    fold s.
    destruct (String.eqb a "SHA1"); [reflexivity |].
    destruct (String.eqb a "SHA256"); [reflexivity |].
    destruct (String.eqb a "SHA512"); reflexivity. }
  split; [| split; [| split; [| split; [| reflexivity]]]].
  - intros Hn. apply hashOf_none in Hn. rewrite Hnew, Hn. reflexivity.
  - intros h Hh. rewrite Hnew, Hh. reflexivity.
  - rewrite Hnew. split.
    + intros [this Hthis].
      destruct (String.eqb_spec a "SHA1") as [| H1]; [tauto |].
      destruct (String.eqb_spec a "SHA256") as [| H2]; [tauto |].
      destruct (String.eqb_spec a "SHA512") as [| H3]; [tauto |].
      assert (Hn : hashOf a = None) by (apply hashOf_none; tauto).
      rewrite Hn in Hthis. discriminate.
    + intros Ha. destruct (hashOf a) as [h |] eqn:Hh.
      * eexists. reflexivity.
      * apply hashOf_none in Hh. destruct Hh as (H1 & H2 & H3).
        destruct Ha as [Ha | [Ha | Ha]]; congruence.
  - intros otherBytes Hs. unfold new.
    destruct (OTPGeneratorOptions.secret options) as [s0 |]; [| congruence].
    reflexivity.
Qed.

(** X2. Whatever calls are made on an instance, its algorithm, digits and
    secret stay those of its construction, the algorithm is one of the
    three supported ones and the keyed hash in use is the one of that
    algorithm. *)
Theorem instance_invariant
        (randomBytes : WordArray) (options : OTPGeneratorOptions.t)
        (this0 this : OTP.t) :
  new randomBytes options = Return this0 ->
  calls this0 this ->
  algorithm this = algorithm this0
  /\ digits this = digits this0
  /\ secret this = secret this0
  /\ (algorithm this = "SHA1" \/ algorithm this = "SHA256"
      \/ algorithm this = "SHA512")
  /\ hashOf (algorithm this) = Some (hash this).
Proof.
  intros Hnew Hcalls.
  destruct (calls_frame _ _ Hcalls) as (Ha & Hd & Hs & Hh).
  destruct (new_fields _ _ _ Hnew) as (Hhash & _).
  rewrite Ha, Hd, Hs, Hh. repeat split; try assumption.
  destruct (String.eqb_spec (algorithm this0) "SHA1") as [| H1]; [tauto |].
  destruct (String.eqb_spec (algorithm this0) "SHA256") as [| H2]; [tauto |].
  destruct (String.eqb_spec (algorithm this0) "SHA512") as [| H3]; [tauto |].
  assert (Hn : hashOf (algorithm this0) = None) by (apply hashOf_none; tauto).
  congruence.
Qed.

(** X3. An instance constructed without a secret holds the base32 text of
    the random bytes; when the codec reads that text back to those bytes,
    [hotp] returns at every counter, and the key of the digest is the
    random bytes. *)
Theorem generated_secret_usable
        (randomBytes : WordArray) (options : OTPGeneratorOptions.t)
        (this : OTP.t) (counter : JS.number) :
  OTPGeneratorOptions.secret options = None ->
  new randomBytes options = Return this ->
  base32_decode (base32_encode (wordArrayToBytes randomBytes))
  = Some (wordArrayToBytes randomBytes) ->
  secret this = base32_encode (wordArrayToBytes randomBytes)
  /\ result (hotp (HOTPOptions.mk counter)) this
     = Return
         (JS.padStart
            (JS.toString
               (JS.Int
                  (Spec.binCode
                     (digestOf this counter (wordArrayToBytes randomBytes))
                   mod 10 ^ Z.of_nat (digits this)))
               10)
            (digits this) "0"%char).
Proof.
  intros Hnone Hnew Hround.
  assert (Hs : secret this = base32_encode (wordArrayToBytes randomBytes)).
  { unfold new, setHash, bind, get, set_hash, throw in Hnew.
    cbn [algorithm digits secret period hash] in Hnew.
    rewrite Hnone in Hnew. unfold generateSecret in Hnew.
    fold (wordArrayToBytes randomBytes) in Hnew.
    destruct (String.eqb _ "SHA1");
      [| destruct (String.eqb _ "SHA256");
         [| destruct (String.eqb _ "SHA512")]];
      inversion Hnew; reflexivity. }
  split; [exact Hs |].
  apply hotp_value. rewrite Hs. exact Hround.
Qed.

(** *** Generation, then verification *)

(** X8. A code [totp] returns is accepted by [totpVerify] on the same
    instance at any time whose counter is at most [window] away from the
    counter of the generation, before or after; the counters are those
    the program computes, [Math.floor(timestamp / 1000 / period)] in
    doubles, the counter of the generation has at most 53 bits and the
    window is below [2 ^ 53]. *)
Theorem totp_then_totpVerify
        (this : OTP.t) (now : Z) (options : TOTPOptions.t) (code : string)
        (now' : Z) (override' timestamp' window' : option Z) (k k' : Z) :
  let this' := after (totp now options) this in
  let p := period this' in
  let verifyOptions := TOTPVerifyOptions.mk override' timestamp' code window' in
  JS.floor_div_div (timestampFor now (TOTPOptions.timestamp options)) 1000 p
  = JS.Int k ->
  JS.floor_div_div (timestampFor now' timestamp') 1000 p = JS.Int k' ->
  Z.abs k <= 2 ^ 53 ->
  windowFor verifyOptions < 2 ^ 53 ->
  result (totp now options) this = Return code ->
  k' - windowFor verifyOptions <= k <= k' + windowFor verifyOptions ->
  result (totpVerify now' verifyOptions) this' = Return true.
Proof.
  intros this' p verifyOptions Hk Hk' Hsafe Hwindow Hcode Hwin.
  assert (Hper : p = periodFor options this).
  { unfold p, this'. rewrite totp_after. reflexivity. }
  apply totpVerify_true. exists (k - k'). split; [lia |].
  cbn [TOTPVerifyOptions.timestamp TOTPVerifyOptions.code verifyOptions].
  fold p. rewrite Hk'.
  rewrite add_safe by (replace (k' + (k - k')) with k by lia; exact Hsafe).
  replace (k' + (k - k')) with k by lia.
  rewrite totp_result, <- Hper, Hk in Hcode. rewrite <- Hcode.
  apply hotp_reads; unfold this'; rewrite totp_after; reflexivity.
Qed.


End EngineExtras.

Section CodeShape.

Context {E : Externals}.



(** X11. From 10 digits on, the modulus cuts nothing: the code is the 31
    bit number of the truncation itself on 10 places, behind
    [digits - 10] zeros. *)
Theorem hotp_ten_digits (this : OTP.t) (counter : JS.number) (key : list Z) :
  (10 <= digits this)%nat ->
  base32_decode (secret this) = Some key ->
  result (hotp (HOTPOptions.mk counter)) this
  = Return
      (String.append
         (string_of_list_ascii (repeat "0"%char (digits this - 10)))
         (Spec.decimal 10 (Spec.binCode (digestOf this counter key)))).
Proof.
  intros Hd Hk. rewrite (hotp_decimal this counter key Hk) by lia. f_equal.
  pose proof (truncation (digestOf this counter key)
                (wordArrayToBytes_bytes _)) as T.
  cbv zeta in T. destruct T as (_ & _ & _ & Hbin).
  assert (Hpow : 10 ^ Z.of_nat 10 <= 10 ^ Z.of_nat (digits this))
    by (apply Z.pow_le_mono_r; lia).
  change (10 ^ Z.of_nat 10) with 10000000000 in Hpow.
  rewrite Z.mod_small by lia.
  unfold Spec.decimal.
  rewrite (positional_pad 10 ltac:(lia) 10 (digits this)); [| | lia].
  - rewrite map_app, map_repeat, <- string_of_list_ascii_app. reflexivity.
  - change (10 ^ Z.of_nat 10) with 10000000000. lia.
Qed.

(** X12. With 0 digits the code is the one character "0", at every
    counter: the modulus is 1 and the padding adds nothing. *)
Theorem hotp_zero_digits (this : OTP.t) (counter : JS.number) (key : list Z) :
  digits this = 0%nat ->
  base32_decode (secret this) = Some key ->
  result (hotp (HOTPOptions.mk counter)) this = Return "0".
Proof.
  intros Hd Hk. rewrite (hotp_value this counter key Hk), Hd.
  change (10 ^ Z.of_nat 0) with 1. rewrite Z.mod_1_r. reflexivity.
Qed.

(** X13. With a period of 0 in force the counter is no number of a step:
    every positive timestamp gives the counter [Infinity], so that [totp]
    returns one and the same code at all positive times, and [totpVerify]
    with a window [w >= 0] accepts at any positive time exactly the code
    [totp] returns at any other. *)
Theorem zero_period_one_code
        (this : OTP.t) (now now' : Z) (t t' : Z) (override : option Z)
        (code : string) (w : Z) :
  period this = 0 ->
  0 < t -> 0 < t' -> 0 <= w ->
  result (totp now (TOTPOptions.mk None (Some t))) this
  = result (hotp (HOTPOptions.mk JS.Infinity)) this
  /\ result (totp now (TOTPOptions.mk None (Some t))) this
     = result (totp now' (TOTPOptions.mk None (Some t'))) this
  /\ (result
        (totpVerify now' (TOTPVerifyOptions.mk override (Some t') code (Some w)))
        this
      = Return true
      <-> result (totp now (TOTPOptions.mk None (Some t))) this = Return code).
Proof.
  intros Hp Ht Ht' Hw.
  assert (Hinf : forall x, 0 < x -> JS.floor_div_div x 1000 0 = JS.Infinity).
  { intros x Hx. unfold JS.floor_div_div. cbn [Z.eqb].
    destruct (Z.ltb_spec 0 (x * 1000)) as [| Hle]; [reflexivity | lia]. }
  assert (Htotp : forall n x, 0 < x ->
            result (totp n (TOTPOptions.mk None (Some x))) this
            = result (hotp (HOTPOptions.mk JS.Infinity)) this).
  { intros n x Hx. rewrite totp_result. unfold periodFor, timestampFor.
    cbn [TOTPOptions.period TOTPOptions.timestamp].
    rewrite Hp, (Hinf x Hx). reflexivity. }
  split; [apply Htotp; exact Ht |].
  split; [rewrite !Htotp by assumption; reflexivity |].
  rewrite (Htotp now t Ht), totpVerify_true.
  unfold windowFor, timestampFor.
  cbn [TOTPVerifyOptions.window TOTPVerifyOptions.timestamp
       TOTPVerifyOptions.code].
  rewrite Hp, (Hinf t' Ht'). cbn [JS.add]. split.
  - intros [i [_ Hc]]. exact Hc.
  - intros Hc. exists 0. split; [lia | exact Hc].
Qed.

(** *** Sequences of [totp] calls *)

Lemma afterTotps_app (l1 l2 : list (Z * TOTPOptions.t)) (this : OTP.t) :
  afterTotps (l1 ++ l2) this = afterTotps l2 (afterTotps l1 this).
Proof.
  revert this. induction l1 as [| [now options] l1 IH]; intros this.
  - reflexivity.
  - cbn [app afterTotps]. apply IH.
Qed.

Lemma afterTotps_noOverride (l : list (Z * TOTPOptions.t)) (this : OTP.t) :
  Forall noOverride l -> afterTotps l this = this.
Proof.
  intros Hl. revert this.
  induction Hl as [| [now options] l Hno _ IH]; intros this.
  - reflexivity.
  - cbn [afterTotps]. rewrite totp_after.
    assert (Hper : periodFor options this = period this).
    { unfold periodFor. unfold noOverride in Hno. cbn [snd] in Hno.
      destruct Hno as [-> | ->]; reflexivity. }
    rewrite Hper. destruct this. apply IH.
Qed.

(** X14. After any sequence of [totp] calls the stored period is the
    override of the last call that gave a non-zero one, and the stored
    period of before when no call did; the other fields are those of
    before. *)
Theorem totp_sequence_period
        (before after : list (Z * TOTPOptions.t)) (now : Z) (p : Z)
        (timestamp : option Z) (this : OTP.t) :
  Forall noOverride after ->
  (p <> 0 ->
   period
     (afterTotps (before ++ (now, TOTPOptions.mk (Some p) timestamp) :: after)
        this)
   = p)
  /\ afterTotps after this = this
  /\ algorithm (afterTotps before this) = algorithm this
  /\ digits (afterTotps before this) = digits this
  /\ secret (afterTotps before this) = secret this
  /\ hash (afterTotps before this) = hash this.
Proof.
  intros Hafter. split; [| split].
  - intros Hp. rewrite afterTotps_app. cbn [afterTotps].
    rewrite (afterTotps_noOverride after) by exact Hafter.
    rewrite totp_after. unfold periodFor.
    cbn [TOTPOptions.period period].
    apply Z.eqb_neq in Hp. rewrite Hp. reflexivity.
  - apply afterTotps_noOverride. exact Hafter.
  - revert this. induction before as [| [n o] before IH]; intros this.
    + repeat split; reflexivity.
    + cbn [afterTotps].
      destruct (IH (OTP.after (totp n o) this)) as (Ha & Hd & Hs & Hh).
      rewrite Ha, Hd, Hs, Hh, totp_after. repeat split; reflexivity.
Qed.

End CodeShape.

Section Composition.

Context {E : Externals}.

(** X15. With a window of 0, [totpVerify] is [hotpVerify] at the counter
    of the time: the two calls end the same way, value or error, whatever
    the stored period. *)
Theorem totpVerify_window_zero
        (this : OTP.t) (now : Z) (override timestamp : option Z) (code : string) :
  result
    (totpVerify now (TOTPVerifyOptions.mk override timestamp code (Some 0)))
    this
  = result
      (hotpVerify
         (HOTPVerify.mk
            (JS.floor_div_div (timestampFor now timestamp) 1000 (period this))
            code))
      this.
Proof.
  unfold totpVerify.
  cbn [TOTPVerifyOptions.window TOTPVerifyOptions.timestamp
       TOTPVerifyOptions.code].
  change (Z.to_nat (0 - - 0 + 1)) with 1%nat. change (- 0) with 0.
  fold (timestampFor now timestamp).
  rewrite totpVerify_for_step, add_zero, hotpVerify_result.
  cbn [HOTPVerify.counter HOTPVerify.code].
  destruct (result (hotp _) this) as [otp | e]; [| reflexivity].
  destruct (String.eqb otp code); reflexivity.
Qed.

(** X16. When the codec rejects the secret, [hotp], [hotpVerify] and
    [totp] throw the error of the codec, [totp] having stored its
    override all the same; [totpVerify] throws it too for a window
    [w >= 0], and returns [false] for a negative one, the secret unread. *)
Theorem undecodable_secret (this : OTP.t) :
  base32_decode (secret this) = None ->
  (forall options,
     result (hotp options) this = Throw (CodecError (secret this)))
  /\ (forall options,
        result (hotpVerify options) this = Throw (CodecError (secret this)))
  /\ (forall now options,
        result (totp now options) this = Throw (CodecError (secret this))
        /\ period (after (totp now options) this) = periodFor options this)
  /\ (forall now options,
        0 <= windowFor options ->
        result (totpVerify now options) this = Throw (CodecError (secret this)))
  /\ (forall now options,
        windowFor options < 0 ->
        result (totpVerify now options) this = Return false).
Proof.
  intros Hk. split; [| split; [| split; [| split]]].
  - intros options. apply hotp_rejects. exact Hk.
  - intros options. rewrite hotpVerify_result, (hotp_rejects _ _ Hk).
    reflexivity.
  - intros now options. split.
    + rewrite totp_result. apply hotp_rejects. exact Hk.
    + rewrite totp_after. reflexivity.
  - intros now options Hw. unfold totpVerify. fold (windowFor options).
    destruct (Z.to_nat (windowFor options - - windowFor options + 1))
      as [| n] eqn:Hn; [lia |].
    rewrite totpVerify_for_step, (hotp_rejects _ _ Hk). reflexivity.
  - intros now options. apply totpVerify_negative_window.
Qed.

Lemma hotp_by_wordArray (this : OTP.t) (c1 c2 : JS.number) :
  numberToWordArray c1 = numberToWordArray c2 ->
  result (hotp (HOTPOptions.mk c1)) this
  = result (hotp (HOTPOptions.mk c2)) this.
Proof.
  intros Heq. unfold result, hotp.
  cbv beta iota zeta delta [HOTPOptions.counter].
  rewrite Heq. reflexivity.
Qed.

(** X17. A counter that is no number still gets a code: the texts
    "Infinity" and "-Infinity" are read as the 8 bytes of the counter
    983040 and the text "NaN" as those of the counter 10, so that [hotp]
    returns at these counters what it returns at 983040 and at 10, on
    every instance. *)
Theorem nonfinite_counters (this : OTP.t) :
  numberToWordArray JS.Infinity = numberToWordArray (JS.Int 983040)
  /\ numberToWordArray JS.NegInfinity = numberToWordArray (JS.Int 983040)
  /\ numberToWordArray JS.NaN = numberToWordArray (JS.Int 10)
  /\ result (hotp (HOTPOptions.mk JS.Infinity)) this
     = result (hotp (HOTPOptions.mk (JS.Int 983040))) this
  /\ result (hotp (HOTPOptions.mk JS.NegInfinity)) this
     = result (hotp (HOTPOptions.mk (JS.Int 983040))) this
  /\ result (hotp (HOTPOptions.mk JS.NaN)) this
     = result (hotp (HOTPOptions.mk (JS.Int 10))) this.
Proof.
  assert (H1 : numberToWordArray JS.Infinity = numberToWordArray (JS.Int 983040))
    by (vm_compute; reflexivity).
  assert (H2 : numberToWordArray JS.NegInfinity
               = numberToWordArray (JS.Int 983040))
    by (vm_compute; reflexivity).
  assert (H3 : numberToWordArray JS.NaN = numberToWordArray (JS.Int 10))
    by (vm_compute; reflexivity).
  split; [exact H1 |]. split; [exact H2 |]. split; [exact H3 |].
  split; [| split]; apply hotp_by_wordArray; assumption.
Qed.

End Composition.

(** *** The further properties at work on the test material *)

Section ExtrasOnTheVectors.

#[local] Existing Instance Standard.externals.

Import Vectors.

Lemma new_outcome_witness :
  new noRandom (OTPGeneratorOptions.mk (Some "MD5") None None (Some secret))
  = Throw (InvalidAlgorithmError "MD5").
Proof.
  apply (proj1 (new_outcome noRandom
                  (OTPGeneratorOptions.mk (Some "MD5") None None (Some secret)))).
  repeat split; discriminate.
Defined.

Lemma instance_invariant_witness :
  new noRandom (OTPGeneratorOptions.mk None None None (Some secret))
  = Return this6
  /\ algorithm (after (totp 0 (TOTPOptions.mk (Some 60) None)) this6)
     = algorithm this6.
Proof.
  split; [reflexivity |].
  apply (proj1 (instance_invariant noRandom
                  (OTPGeneratorOptions.mk None None None (Some secret))
                  this6 (after (totp 0 (TOTPOptions.mk (Some 60) None)) this6)
                  eq_refl
                  (calls_totp _ 0 (TOTPOptions.mk (Some 60) None) _
                     (calls_none this6)))).
Defined.

Lemma new_generated :
  new randomBytes20 (OTPGeneratorOptions.mk None None None None)
  = Return (mk "SHA1" 6 (generateSecret randomBytes20) 30 HmacSHA1).
Proof.
  unfold new, setHash, bind, get, set_hash.
  cbn [OTPGeneratorOptions.algorithm OTPGeneratorOptions.digits
       OTPGeneratorOptions.period OTPGeneratorOptions.secret
       algorithm digits secret period hash].
  cbn [String.eqb Ascii.eqb Bool.eqb andb].
  reflexivity.
Qed.

Lemma generated_secret_usable_witness :
  base32_decode (base32_encode (wordArrayToBytes randomBytes20))
  = Some (wordArrayToBytes randomBytes20)
  /\ OTP.secret (mk "SHA1" 6 (generateSecret randomBytes20) 30 HmacSHA1)
     = base32_encode (wordArrayToBytes randomBytes20).
Proof.
  assert (Hround : base32_decode (base32_encode (wordArrayToBytes randomBytes20))
                   = Some (wordArrayToBytes randomBytes20))
    by (vm_compute; reflexivity).
  split; [exact Hround |].
  apply (proj1 (generated_secret_usable randomBytes20
                  (OTPGeneratorOptions.mk None None None None)
                  (mk "SHA1" 6 (generateSecret randomBytes20) 30 HmacSHA1)
                  (JS.Int 0) eq_refl new_generated Hround)).
Defined.

Lemma wordArrayToBytes_create_witness :
  Forall isByte [1; 2; 255; 0; 128]
  /\ wordArrayToBytes (CryptoJS.create [1; 2; 255; 0; 128]) = [1; 2; 255; 0; 128].
Proof.
  assert (Hb : Forall isByte [1; 2; 255; 0; 128])
    by (repeat constructor; unfold isByte; lia).
  split; [exact Hb |].
  apply (proj1 (wordArrayToBytes_create [1; 2; 255; 0; 128] Hb)).
Defined.

Lemma wordArrayToBytes_shape_witness :
  (4 * List.length (words oneWord) <= 5)%nat
  /\ nth 5 (wordArrayToBytes oneWord) 0 = 0.
Proof.
  assert (H : (4 * List.length (words oneWord) <= 5)%nat)
    by (cbn; lia).
  split; [exact H |].
  apply (proj1 (proj2 (proj2 (wordArrayToBytes_shape oneWord)))
           5%nat H).
Defined.

Lemma counter_message_witness :
  0 <= 2 ^ 63 + 2048 < 2 ^ 64
  /\ Standard.be_value
       (wordArrayToBytes (numberToWordArray (JS.Int (2 ^ 63 + 2048))))
     = 2 ^ 63 + 2048.
Proof.
  assert (H : 0 <= 2 ^ 63 + 2048 < 2 ^ 64) by (split; [discriminate | reflexivity]).
  split; [exact H |].
  apply (proj1 (proj2 (counter_message (2 ^ 63 + 2048) H))).
Defined.

Lemma totp_then_totpVerify_witness :
  result (totp 0 (TOTPOptions.mk None (Some 59000))) this6 = Return "287082"
  /\ result
       (totpVerify 0 (TOTPVerifyOptions.mk None (Some 89000) "287082" None))
       (after (totp 0 (TOTPOptions.mk None (Some 59000))) this6)
     = Return true.
Proof.
  assert (Hcode : result (totp 0 (TOTPOptions.mk None (Some 59000))) this6
                  = Return "287082") by (vm_compute; reflexivity).
  split; [exact Hcode |].
  apply (totp_then_totpVerify this6 0 (TOTPOptions.mk None (Some 59000))
           "287082" 0 None (Some 89000) None 1 2).
  - rewrite totp_after. vm_compute; reflexivity.
  - rewrite totp_after. vm_compute; reflexivity.
  - discriminate.
  - reflexivity.
  - exact Hcode.
  - split; discriminate.
Defined.



Lemma hotp_ten_digits_witness :
  (10 <= digits this12)%nat
  /\ base32_decode (OTP.secret this12)
     = Some (Standard.bytes_of_string "12345678901234567890")
  /\ result (hotp (HOTPOptions.mk (JS.Int 1))) this12
     = Return
         (String.append "00"
            (Spec.decimal 10
               (Spec.binCode
                  (digestOf this12 (JS.Int 1)
                     (Standard.bytes_of_string "12345678901234567890"))))).
Proof.
  assert (Hd : (10 <= digits this12)%nat) by (cbn [digits this12]; lia).
  assert (Hk : base32_decode (OTP.secret this12)
               = Some (Standard.bytes_of_string "12345678901234567890"))
    by (vm_compute; reflexivity).
  split; [exact Hd |]. split; [exact Hk |].
  apply (hotp_ten_digits this12 (JS.Int 1) _ Hd Hk).
Defined.

Lemma hotp_zero_digits_witness :
  digits thisNoDigits = 0%nat
  /\ result (hotp (HOTPOptions.mk (JS.Int 5))) thisNoDigits = Return "0".
Proof.
  split; [reflexivity |].
  apply (hotp_zero_digits thisNoDigits (JS.Int 5)
           (Standard.bytes_of_string "12345678901234567890") eq_refl).
  vm_compute; reflexivity.
Defined.

Lemma zero_period_one_code_witness :
  period thisNoPeriod = 0
  /\ result (totp 0 (TOTPOptions.mk None (Some 59000))) thisNoPeriod
     = result (totp 0 (TOTPOptions.mk None (Some 1))) thisNoPeriod.
Proof.
  split; [reflexivity |].
  apply (proj1 (proj2 (zero_period_one_code thisNoPeriod 0 0 59000 1 None
                         "652798" 1 eq_refl eq_refl eq_refl
                         ltac:(discriminate)))).
Defined.

Lemma totp_sequence_period_witness :
  60 <> 0
  /\ period
       (afterTotps
          ([(0, TOTPOptions.mk (Some 45) None)]
           ++ (0, TOTPOptions.mk (Some 60) None)
              :: [(0, TOTPOptions.mk None None);
                  (0, TOTPOptions.mk (Some 0) None)])
          this6)
     = 60.
Proof.
  assert (Hne : 60 <> 0) by discriminate.
  assert (Hafter : Forall noOverride
                     [(0, TOTPOptions.mk None None);
                      (0, TOTPOptions.mk (Some 0) None)]).
  { constructor; [left; reflexivity |].
    constructor; [right; reflexivity | constructor]. }
  split; [exact Hne |].
  apply (proj1 (totp_sequence_period
                  [(0, TOTPOptions.mk (Some 45) None)]
                  [(0, TOTPOptions.mk None None);
                   (0, TOTPOptions.mk (Some 0) None)]
                  0 60 None this6 Hafter)
           Hne).
Defined.

Lemma undecodable_secret_witness :
  base32_decode (OTP.secret thisBadSecret) = None
  /\ result (totp 0 (TOTPOptions.mk (Some 60) None)) thisBadSecret
     = Throw (CodecError "not base32")
  /\ period (after (totp 0 (TOTPOptions.mk (Some 60) None)) thisBadSecret) = 60.
Proof.
  assert (Hk : base32_decode (OTP.secret thisBadSecret) = None)
    by (vm_compute; reflexivity).
  split; [exact Hk |].
  apply (proj1 (proj2 (proj2 (undecodable_secret thisBadSecret Hk)))
           0 (TOTPOptions.mk (Some 60) None)).
Defined.

End ExtrasOnTheVectors.
